(** * Upsell groups: the persistence-and-enrichment layer and the public
    retrieval endpoint of the checkout app extension

    A shallow embedding of [app/models/Upsell.server.ts] and
    [app/routes/api/upsell.ts], with the JavaScript run-time notions they
    rest on (values, truthiness, property reads, exceptions, JSON text), the
    record store they talk to and the catalog client they are handed. *)

From Stdlib Require Import ZArith NArith List String Ascii Lia Bool DecimalString.
From stdpp Require Import base list sorting option numbers.

(* ===================================================================== *)
(** * JavaScript values *)
(* ===================================================================== *)

(** A JavaScript string is a sequence of UTF-16 code units. *)
Definition CodeUnit := N.
Definition JsString := list CodeUnit.

Definition valid_unit (c : CodeUnit) : Prop := (c < 65536)%N.

(** String literals of the source, as code units. *)
Definition js (s : string) : JsString :=
  (fun a => N_of_ascii a) <$> list_ascii_of_string s.

(** A number that came out of JSON text: the decimal [mant * 10 ^ expo].
    The program never computes with numbers; it only tests them for
    truthiness. *)
Record JsNumber := Dec { mant : Z; expo : Z }.

(** The double nearest to a decimal is zero when the decimal is zero or lies
    at or below half the least subnormal, 2^-1075 (ties go to even). *)
Definition number_is_zero (n : JsNumber) : bool :=
  (mant n =? 0)%Z
  || ((expo n <? 0)%Z && (Z.abs (mant n) * 2 ^ 1075 <=? 10 ^ (- expo n))%Z).

(** Values, over the host functions [F] a value may carry.  Data that came
    out of JSON text carries none ([F := Empty_set]). *)
#[warnings="-register-all"]
Inductive JsVal (F : Type) : Type :=
| JUndefined
| JNull
| JBool (b : bool)
| JNum (n : JsNumber)
| JStr (s : JsString)
| JArr (items : list (JsVal F))
| JObj (props : list (JsString * JsVal F))
| JFun (f : F).

Arguments JUndefined {F}.
Arguments JNull {F}.
Arguments JBool {F} b.
Arguments JNum {F} n.
Arguments JStr {F} s.
Arguments JArr {F} items.
Arguments JObj {F} props.
Arguments JFun {F} f.

Definition Data := JsVal Empty_set.

(** What a call can throw. *)
Inductive Exn :=
| TypeError (msg : string)
| SyntaxError (msg : string)
| InvariantFailed (msg : string)   (* tiny-invariant *)
| HostError (what : string).       (* thrown by an external collaborator *)

Inductive Outcome (A : Type) :=
| Returns (a : A)
| Throws (e : Exn).

Arguments Returns {A} a.
Arguments Throws {A} e.

Definition obind {A B} (o : Outcome A) (k : A -> Outcome B) : Outcome B :=
  match o with
  | Returns a => k a
  | Throws e => Throws e
  end.

Section Values.
Context {F : Type}.

(** ToBoolean. *)
Definition ToBoolean (v : JsVal F) : bool :=
  match v with
  | JUndefined | JNull => false
  | JBool b => b
  | JNum n => negb (number_is_zero n)
  | JStr s => match s with [] => false | _ :: _ => true end
  | JArr _ | JObj _ | JFun _ => true
  end.

(** Own properties of an object, in insertion order. *)
Fixpoint lookup_prop (k : JsString) (props : list (JsString * JsVal F))
  : option (JsVal F) :=
  match props with
  | [] => None
  | (k', v) :: rest => if bool_decide (k = k') then Some v else lookup_prop k rest
  end.

Fixpoint set_prop (k : JsString) (v : JsVal F) (props : list (JsString * JsVal F))
  : list (JsString * JsVal F) :=
  match props with
  | [] => [(k, v)]
  | (k', v') :: rest =>
      if bool_decide (k = k') then (k', v) :: rest else (k', v') :: set_prop k v rest
  end.

Definition has_prop (k : JsString) (v : JsVal F) : bool :=
  match v with
  | JObj props => bool_decide (is_Some (lookup_prop k props))
  | _ => false
  end.

(** [v.k] for the property names this program reads ([data], [nodes],
    [products], [id], [title], [handle], [featuredImage], [url],
    [session], [cors]): none of them is an index, [length] or a member of
    a built-in prototype, so only objects answer with something defined.
    Reading from [undefined] or [null] throws. *)
Definition get (v : JsVal F) (k : JsString) : Outcome (JsVal F) :=
  match v with
  | JUndefined => Throws (TypeError "Cannot read properties of undefined")
  | JNull => Throws (TypeError "Cannot read properties of null")
  | JObj props => Returns (default JUndefined (lookup_prop k props))
  | _ => Returns JUndefined
  end.

(** [v?.k] *)
Definition get_opt (v : JsVal F) (k : JsString) : Outcome (JsVal F) :=
  match v with
  | JUndefined | JNull => Returns JUndefined
  | _ => get v k
  end.

(** [a || b] *)
Definition or_else (a b : JsVal F) : JsVal F :=
  if ToBoolean a then a else b.
End Values.

(* ===================================================================== *)
(** * JSON text *)
(* ===================================================================== *)

(** [JSON.stringify] on an array of strings and [JSON.parse] on any text, as
    ECMAScript defines them (QuoteJSONString with well-formed escaping of
    lone surrogates; the JSON grammar of ECMA-404). *)
Module JSON.
Local Open Scope N_scope.

Definition hex_digit (d : N) : CodeUnit :=
  if d <? 10 then 48 + d else 87 + d.

(** [\uXXXX], lower-case hexadecimal. *)
Definition unicode_escape (c : CodeUnit) : JsString :=
  [92; 117; hex_digit (c / 4096 mod 16); hex_digit (c / 256 mod 16);
   hex_digit (c / 16 mod 16); hex_digit (c mod 16)].

Definition is_high_surrogate (c : CodeUnit) : bool := (55296 <=? c) && (c <=? 56319).
Definition is_low_surrogate (c : CodeUnit) : bool := (56320 <=? c) && (c <=? 57343).

(** One code unit that is not half of a surrogate pair. *)
Definition quote_unit (c : CodeUnit) : JsString :=
  if c =? 8 then [92; 98]            (* \b *)
  else if c =? 9 then [92; 116]      (* \t *)
  else if c =? 10 then [92; 110]     (* \n *)
  else if c =? 12 then [92; 102]     (* \f *)
  else if c =? 13 then [92; 114]     (* \r *)
  else if c =? 34 then [92; 34]      (* escaped quote *)
  else if c =? 92 then [92; 92]      (* escaped backslash *)
  else if (c <? 32) || is_high_surrogate c || is_low_surrogate c
       then unicode_escape c
  else [c].

Fixpoint quote_units (s : JsString) : JsString :=
  match s with
  | [] => []
  | c :: rest =>
      match rest with
      | d :: rest' =>
          if is_high_surrogate c && is_low_surrogate d
          then c :: d :: quote_units rest'
          else quote_unit c ++ quote_units rest
      | [] => quote_unit c
      end
  end.

Definition quote (s : JsString) : JsString := 34 :: quote_units s ++ [34].

Fixpoint join_elements (items : list JsString) : JsString :=
  match items with
  | [] => []
  | [x] => x
  | x :: rest => x ++ 44 :: join_elements rest
  end.

(** [JSON.stringify(productIds)] for [productIds : string[]]. *)
Definition stringify (productIds : list JsString) : JsString :=
  91 :: join_elements (quote <$> productIds) ++ [93].

(** ** Parsing *)

Inductive Parsed (A : Type) :=
| Parse (a : A) (rest : JsString)
| Reject
| OutOfFuel.
Arguments Parse {A} a rest.
Arguments Reject {A}.
Arguments OutOfFuel {A}.

Definition is_ws (c : CodeUnit) : bool :=
  (c =? 32) || (c =? 9) || (c =? 10) || (c =? 13).

Fixpoint skip_ws (s : JsString) : JsString :=
  match s with
  | c :: rest => if is_ws c then skip_ws rest else s
  | [] => []
  end.

Definition hex_value (c : CodeUnit) : option N :=
  if (48 <=? c) && (c <=? 57) then Some (c - 48)
  else if (97 <=? c) && (c <=? 102) then Some (c - 87)
  else if (65 <=? c) && (c <=? 70) then Some (c - 55)
  else None.

Definition hex4 (h3 h2 h1 h0 : CodeUnit) : option CodeUnit :=
  match hex_value h3, hex_value h2, hex_value h1, hex_value h0 with
  | Some a, Some b, Some c, Some d => Some (a * 4096 + b * 256 + c * 16 + d)
  | _, _, _, _ => None
  end.

Definition simple_escape (e : CodeUnit) : option CodeUnit :=
  if e =? 34 then Some 34
  else if e =? 92 then Some 92
  else if e =? 47 then Some 47
  else if e =? 98 then Some 8
  else if e =? 102 then Some 12
  else if e =? 110 then Some 10
  else if e =? 114 then Some 13
  else if e =? 116 then Some 9
  else None.

Definition push (c : CodeUnit) (r : option (JsString * JsString))
  : option (JsString * JsString) :=
  match r with
  | Some (str, rest) => Some (c :: str, rest)
  | None => None
  end.

(** The characters of a string literal, after its opening quote, up to
    and including the closing quote. *)
Fixpoint parse_chars (s : JsString) : option (JsString * JsString) :=
  match s with
  | [] => None
  | c :: rest =>
      if c =? 34 then Some ([], rest)
      else if c =? 92 then
        match rest with
        | e :: rest' =>
            if e =? 117 then
              match rest' with
              | h3 :: h2 :: h1 :: h0 :: rest'' =>
                  match hex4 h3 h2 h1 h0 with
                  | Some u => push u (parse_chars rest'')
                  | None => None
                  end
              | _ => None
              end
            else
              match simple_escape e with
              | Some u => push u (parse_chars rest')
              | None => None
              end
        | [] => None
        end
      else if c <? 32 then None
      else push c (parse_chars rest)
  end.

(** *** Numbers: [-? int frac? exp?] *)

Definition is_digit (c : CodeUnit) : bool := (48 <=? c) && (c <=? 57).

Fixpoint take_digits (s : JsString) : list N * JsString :=
  match s with
  | c :: rest =>
      if is_digit c
      then let '(ds, r) := take_digits rest in ((c - 48) :: ds, r)
      else ([], s)
  | [] => ([], [])
  end.

Definition digits_value (ds : list N) : Z :=
  fold_left (fun acc d => acc * 10 + Z.of_N d)%Z ds 0%Z.

(** [0], or a non-zero digit followed by digits. *)
Definition parse_int (s : JsString) : option (list N * JsString) :=
  match s with
  | c :: rest =>
      if c =? 48 then Some ([0], rest)
      else if is_digit c then Some (take_digits s)
      else None
  | [] => None
  end.

Definition parse_frac (s : JsString) : option (list N * JsString) :=
  match s with
  | c :: rest =>
      if c =? 46 then
        match take_digits rest with
        | ([], _) => None
        | (ds, r) => Some (ds, r)
        end
      else Some ([], s)
  | [] => Some ([], s)
  end.

Definition parse_exp (s : JsString) : option (Z * JsString) :=
  match s with
  | c :: rest =>
      if (c =? 101) || (c =? 69) then
        let '(negative, rest') :=
          match rest with
          | sg :: r => if sg =? 45 then (true, r)
                       else if sg =? 43 then (false, r) else (false, rest)
          | [] => (false, rest)
          end in
        match take_digits rest' with
        | ([], _) => None
        | (ds, r) => Some (if negative then (- digits_value ds)%Z else digits_value ds, r)
        end
      else Some (0%Z, s)
  | [] => Some (0%Z, s)
  end.

Definition parse_number (s : JsString) : option (JsNumber * JsString) :=
  let '(negative, s1) :=
    match s with
    | c :: rest => if c =? 45 then (true, rest) else (false, s)
    | [] => (false, s)
    end in
  match parse_int s1 with
  | Some (ids, s2) =>
      match parse_frac s2 with
      | Some (fds, s3) =>
          match parse_exp s3 with
          | Some (e, s4) =>
              let m := digits_value (ids ++ fds) in
              Some (Dec (if negative then (- m)%Z else m)
                        (e - Z.of_nat (length fds))%Z, s4)
          | None => None
          end
      | None => None
      end
  | None => None
  end.

(** *** Literals *)

Fixpoint strip_prefix (p s : JsString) : option JsString :=
  match p, s with
  | [], _ => Some s
  | a :: p', b :: s' => if a =? b then strip_prefix p' s' else None
  | _ :: _, [] => None
  end.

Definition parse_literal (s : JsString) : option (Data * JsString) :=
  match strip_prefix (js "true") s with
  | Some r => Some (JBool true, r)
  | None =>
      match strip_prefix (js "false") s with
      | Some r => Some (JBool false, r)
      | None =>
          match strip_prefix (js "null") s with
          | Some r => Some (JNull, r)
          | None =>
              match parse_number s with
              | Some (n, r) => Some (JNum n, r)
              | None => None
              end
          end
      end
  end.

(** *** Values *)

Definition pbind {A B} (p : Parsed A) (k : A -> JsString -> Parsed B) : Parsed B :=
  match p with
  | Parse a rest => k a rest
  | Reject => Reject
  | OutOfFuel => OutOfFuel
  end.

Definition of_option {A} (o : option (A * JsString)) : Parsed A :=
  match o with
  | Some (a, rest) => Parse a rest
  | None => Reject
  end.

(** A later member with the same name replaces the earlier one. *)
Definition object_of (members : list (JsString * Data)) : Data :=
  JObj (fold_left (fun props '(k, v) => set_prop k v props) members []).

Fixpoint parse_value (fuel : nat) (s : JsString) : Parsed Data :=
  match fuel with
  | O => OutOfFuel
  | S fuel =>
      match skip_ws s with
      | [] => Reject
      | c :: rest =>
          if c =? 34 then
            pbind (of_option (parse_chars rest)) (fun str r => Parse (JStr str) r)
          else if c =? 91 then
            match skip_ws rest with
            | d :: r =>
                if d =? 93 then Parse (JArr []) r
                else pbind (parse_elements fuel rest) (fun vs r' => Parse (JArr vs) r')
            | [] => Reject
            end
          else if c =? 123 then
            match skip_ws rest with
            | d :: r =>
                if d =? 125 then Parse (JObj []) r
                else pbind (parse_members fuel rest) (fun ms r' => Parse (object_of ms) r')
            | [] => Reject
            end
          else of_option (parse_literal (c :: rest))
      end
  end
with parse_elements (fuel : nat) (s : JsString) : Parsed (list Data) :=
  match fuel with
  | O => OutOfFuel
  | S fuel =>
      pbind (parse_value fuel s) (fun v r =>
        match skip_ws r with
        | d :: r' =>
            if d =? 44 then
              pbind (parse_elements fuel r') (fun vs r'' => Parse (v :: vs) r'')
            else if d =? 93 then Parse [v] r'
            else Reject
        | [] => Reject
        end)
  end
with parse_members (fuel : nat) (s : JsString) : Parsed (list (JsString * Data)) :=
  match fuel with
  | O => OutOfFuel
  | S fuel =>
      match skip_ws s with
      | q :: r =>
          if q =? 34 then
            pbind (of_option (parse_chars r)) (fun key r1 =>
              match skip_ws r1 with
              | colon :: r2 =>
                  if colon =? 58 then
                    pbind (parse_value fuel r2) (fun v r3 =>
                      match skip_ws r3 with
                      | d :: r4 =>
                          if d =? 44 then
                            pbind (parse_members fuel r4)
                                  (fun ms r5 => Parse ((key, v) :: ms) r5)
                          else if d =? 125 then Parse [(key, v)] r4
                          else Reject
                      | [] => Reject
                      end)
                  else Reject
              | [] => Reject
              end)
          else Reject
      | [] => Reject
      end
  end.

(** [JSON.parse(text)]: one value, white space around it, nothing else;
    anything else is a SyntaxError.  The fuel bounds the recursion and is
    never used up (see [parse_value_fuel]). *)
Definition parse (text : JsString) : Outcome Data :=
  match parse_value (2 * length text + 1) text with
  | Parse v rest =>
      match skip_ws rest with
      | [] => Returns v
      | _ :: _ => Throws (SyntaxError "Unexpected non-whitespace character after JSON")
      end
  | Reject | OutOfFuel => Throws (SyntaxError "Unexpected token in JSON")
  end.
End JSON.

(* ===================================================================== *)
(** * The record store *)
(* ===================================================================== *)

(** [UpsellGroupFromDB]: a row as the store keeps it.  [createdAt] is a
    time stamp in milliseconds. *)
Record UpsellGroupFromDB := {
  group_id : Z;
  group_title : JsString;
  group_shop : JsString;
  group_productIds : JsString;   (* JSON text *)
  group_createdAt : Z
}.

(** Modelled from the spec: the store behind [db.upsellGroup]
    ([app/db.server] and the Prisma schema are not among the sources).  The
    table is the one the source spells out above its [create] call and the
    spec repeats: [UpsellGroup(id PK autoincrement, title, shop, productIds
    text, createdAt default-now)].  Rows are kept in insertion order;
    [next_id] is the autoincrement counter. *)
Record Store := {
  rows : list UpsellGroupFromDB;
  next_id : Z
}.

Module db.
(** [where: { id, shop }] *)
Definition where_id_shop (id : Z) (shop : JsString) (r : UpsellGroupFromDB) : Prop :=
  group_id r = id /\ group_shop r = shop.

(** [where: { shop }] *)
Definition where_shop (shop : JsString) (r : UpsellGroupFromDB) : Prop :=
  group_shop r = shop.

#[global] Instance where_id_shop_dec id shop r : Decision (where_id_shop id shop r).
Proof. unfold where_id_shop. apply _. Defined.

#[global] Instance where_shop_dec shop r : Decision (where_shop shop r).
Proof. unfold where_shop. apply _. Defined.

(** [orderBy: { id: "desc" }] *)
Definition id_desc (a b : UpsellGroupFromDB) : Prop := (group_id b <= group_id a)%Z.

#[global] Instance id_desc_dec a b : Decision (id_desc a b).
Proof. unfold id_desc. apply _. Defined.

(** [create({ data: { shop, title, productIds } })] at time [now]. *)
Definition create (shop title productIds : JsString) (now : Z) (s : Store)
  : UpsellGroupFromDB * Store :=
  let row := {| group_id := next_id s; group_title := title; group_shop := shop;
                group_productIds := productIds; group_createdAt := now |} in
  (row, {| rows := rows s ++ [row]; next_id := (next_id s + 1)%Z |}).

(** [findFirst({ where: { id, shop } })] *)
Definition findFirst (id : Z) (shop : JsString) (s : Store) : option UpsellGroupFromDB :=
  snd <$> list_find (where_id_shop id shop) (rows s).

(** [findMany({ where: { shop }, orderBy: { id: "desc" } })] *)
Definition findMany (shop : JsString) (s : Store) : list UpsellGroupFromDB :=
  merge_sort id_desc (filter (where_shop shop) (rows s)).

(** [updateMany({ where: { id, shop }, data: { title, productIds } })] *)
Definition updateMany (id : Z) (shop : JsString) (title productIds : JsString)
           (s : Store) : Store :=
  {| rows := (fun r => if decide (where_id_shop id shop r)
                       then {| group_id := group_id r; group_title := title;
                               group_shop := group_shop r;
                               group_productIds := productIds;
                               group_createdAt := group_createdAt r |}
                       else r) <$> rows s;
     next_id := next_id s |}.

(** [deleteMany({ where: { id, shop } })] *)
Definition deleteMany (id : Z) (shop : JsString) (s : Store) : Store :=
  {| rows := filter (fun r => ~ where_id_shop id shop r) (rows s);
     next_id := next_id s |}.

(** How many rows a filter selects (the [count] of [updateMany] and
    [deleteMany]). *)
Definition count (id : Z) (shop : JsString) (s : Store) : nat :=
  length (filter (where_id_shop id shop) (rows s)).

(** What autoincrement maintains: every identifier in use is below the
    counter, and no two rows share one. *)
Definition consistent (s : Store) : Prop :=
  Forall (fun r => (group_id r < next_id s)%Z) (rows s)
  /\ NoDup (group_id <$> rows s).
End db.

(* ===================================================================== *)
(** * The catalog client and the world the service runs in *)
(* ===================================================================== *)

(** One [adminClient.graphql(query, { variables })] call. *)
Record GraphqlCall := {
  gql_query : JsString;
  gql_variables : Data
}.

(** What the client does with a call: the [graphql] promise rejects, or it
    resolves to a response whose [json()] returns or throws. *)
Inductive GraphqlReply :=
| GraphqlRejects (e : Exn)
| GraphqlResponds (json : Outcome Data).

(** [AdminApiContext]: an arbitrary client.  Its reply may depend on the
    call and on every call made before it. *)
Definition AdminApiContext := list GraphqlCall -> GraphqlCall -> GraphqlReply.

Record World := {
  store : Store;
  clock : Z;                       (* the time [createdAt] defaults to *)
  requests : list GraphqlCall      (* catalog calls issued so far *)
}.

(** Computations of the service: they read and write the world and return
    or throw. *)
Definition M (A : Type) := World -> Outcome A * World.

Definition ret {A} (a : A) : M A := fun w => (Returns a, w).
Definition throw {A} (e : Exn) : M A := fun w => (Throws e, w).
Definition bind {A B} (m : M A) (k : A -> M B) : M B :=
  fun w => match m w with
           | (Returns a, w') => k a w'
           | (Throws e, w') => (Throws e, w')
           end.
Definition lift {A} (o : Outcome A) : M A := fun w => (o, w).

(** [try { m } catch (error) { h error }] *)
Definition try_catch {A} (m : M A) (h : Exn -> M A) : M A :=
  fun w => match m w with
           | (Returns a, w') => (Returns a, w')
           | (Throws e, w') => h e w'
           end.

Declare Scope service_scope.
Delimit Scope service_scope with service.
Notation "x <- m ;; k" := (bind m (fun x => k))
  (at level 100, m at next level, right associativity) : service_scope.
Notation "m ;; k" := (bind m (fun _ => k))
  (at level 100, right associativity) : service_scope.

(** [invariant(condition, message)] of tiny-invariant. *)
Definition invariant (condition : bool) (message : string) : M unit :=
  if condition then ret tt else throw (InvariantFailed message).

(** [Promise.all(l.map(f))]: [map] starts every call, in order, whatever
    becomes of the earlier ones; the result is the list of their values, or
    a rejection if one of them rejects. *)
Fixpoint promise_all {A B} (f : A -> M B) (l : list A) : M (list B) :=
  match l with
  | [] => ret []
  | x :: rest =>
      fun w =>
        let '(y, w1) := f x w in
        let '(ys, w2) := promise_all f rest w1 in
        (obind y (fun y => obind ys (fun ys => Returns (y :: ys))), w2)
  end.

Fixpoint omapM {A B} (f : A -> Outcome B) (l : list A) : Outcome (list B) :=
  match l with
  | [] => Returns []
  | x :: rest => obind (f x) (fun y => obind (omapM f rest) (fun ys => Returns (y :: ys)))
  end.

(** [await adminClient.graphql(query, { variables })]: the call is recorded,
    the client decides the reply. *)
Definition graphql (adminClient : AdminApiContext) (query : JsString)
           (variables : Data) : M (Outcome Data) :=
  fun w =>
    let call := {| gql_query := query; gql_variables := variables |} in
    let w' := {| store := store w; clock := clock w;
                 requests := requests w ++ [call] |} in
    match adminClient (requests w) call with
    | GraphqlRejects e => (Throws e, w')
    | GraphqlResponds json => (Returns json, w')
    end.

(** Store operations as computations. *)
Definition with_store {A} (f : Store -> A * Store) : M A :=
  fun w => let '(a, s) := f (store w) in
           (Returns a, {| store := s; clock := clock w; requests := requests w |}).

(* ===================================================================== *)
(** * app/models/Upsell.server.ts *)
(* ===================================================================== *)

(** [ProductData]: whatever the catalog put under the four names. *)
Record ProductData := {
  product_id : Data;
  product_title : Data;
  product_handle : Data;
  product_imageUrl : Data
}.

Record EnrichedUpsellGroup := {
  enriched_id : Z;
  enriched_title : JsString;
  enriched_shop : JsString;
  enriched_createdAt : Z;
  enriched_products : list ProductData
}.

(** The candidate [{ title: string; productIds: string[] }] of a form
    submission; [None] is a member that is absent. *)
Record Candidate := {
  data_title : option JsString;
  data_productIds : option (list JsString)
}.

(** A possibly absent string or string array, as the value the checks test. *)
Definition string_value (t : option JsString) : Data :=
  from_option JStr JUndefined t.
Definition array_value (p : option (list JsString)) : Data :=
  from_option (fun ids => JArr (JStr <$> ids)) JUndefined p.
(** [productIds.length], read only once [productIds] is truthy. *)
Definition array_length (p : option (list JsString)) : nat :=
  from_option length 0%nat p.

(** [Object.keys(errors)] *)
Definition keys {F} (props : list (JsString * JsVal F)) : list JsString := fst <$> props.

Definition validateUpsellGroup (data : Candidate) : Data :=
  let errors : list (JsString * Data) := [] in
  let errors :=
    if negb (ToBoolean (string_value (data_title data)))
    then set_prop (js "title") (JStr (js "Title is required")) errors
    else errors in
  let errors :=
    if negb (ToBoolean (array_value (data_productIds data)))
       || (array_length (data_productIds data) =? 0)%nat
    then set_prop (js "products") (JStr (js "At least one product is required")) errors
    else errors in
  if (0 <? length (keys errors))%nat then JObj errors else JUndefined.

Local Open Scope service_scope.

Definition createUpsellGroup (shop : JsString) (title : option JsString)
           (productIds : option (list JsString)) : M UpsellGroupFromDB :=
  invariant (ToBoolean (string_value title)) "Title is required" ;;
  invariant (ToBoolean (array_value productIds) && (0 <? array_length productIds)%nat)
            "Products are required" ;;
  match title, productIds with
  | Some title, Some productIds =>
      fun w => with_store (db.create shop title (JSON.stringify productIds) (clock w)) w
  | _, _ => throw (TypeError "absent argument")   (* excluded by the assertions *)
  end.

(** The catalog's answer for one node, as a display product. *)
Definition format_product (node : Data) : Outcome ProductData :=
  obind (get node (js "id")) (fun id =>
  obind (get node (js "title")) (fun title =>
  obind (get node (js "handle")) (fun handle =>
  obind (get node (js "featuredImage")) (fun featuredImage =>
  obind (get_opt featuredImage (js "url")) (fun url =>
  Returns {| product_id := id; product_title := title;
             product_handle := handle; product_imageUrl := url |}))))).

Definition not_null (node : Data) : bool :=
  match node with
  | JNull => false
  | _ => true
  end.

(** [productNodes.filter(keep)]: only an array has the method. *)
Definition array_filter (keep : Data -> bool) (v : Data) : Outcome (list Data) :=
  match v with
  | JArr items => Returns (List.filter keep items)
  | _ => Throws (TypeError "productNodes.filter is not a function")
  end.

(** [productNodes.map(f)] *)
Definition array_map {B} (f : Data -> Outcome B) (v : Data) : Outcome (list B) :=
  match v with
  | JArr items => omapM f items
  | _ => Throws (TypeError "productNodes.map is not a function")
  end.

Definition getProductNodes : JsString := js "
        query getProductNodes($ids: [ID!]!) {
          nodes(ids: $ids) {
            ... on Product {
              id
              title
              handle
              featuredImage {
                url
              }
            }
          }
        }
      ".

Definition basic (group : UpsellGroupFromDB) (products : list ProductData)
  : EnrichedUpsellGroup :=
  {| enriched_id := group_id group; enriched_title := group_title group;
     enriched_shop := group_shop group; enriched_createdAt := group_createdAt group;
     enriched_products := products |}.

(** The one catalog call of an enrichment. *)
Definition getProductNodes_call (productIds : Data) : GraphqlCall :=
  {| gql_query := getProductNodes; gql_variables := JObj [(js "ids", productIds)] |}.

(** Step 4 of the [try] block: [responseJson.data.nodes || []], without its
    [null] entries, each formatted. *)
Definition response_nodes (responseJson : Data) : Outcome Data :=
  obind (get responseJson (js "data")) (fun data => get data (js "nodes")).

Definition format_products (responseJson : Data) : Outcome (list ProductData) :=
  obind (response_nodes responseJson) (fun nodes =>
  let productNodes := or_else nodes (JArr []) in
  obind (array_filter not_null productNodes) (fun kept =>
  omapM format_product kept)).

(** The body of the [try] block. *)
Definition supplement_body (group : UpsellGroupFromDB) (adminClient : AdminApiContext)
  : M EnrichedUpsellGroup :=
  productIds <- lift (JSON.parse (group_productIds group)) ;;
  response <- graphql adminClient getProductNodes (JObj [(js "ids", productIds)]) ;;
  responseJson <- lift response ;;
  products <- lift (format_products responseJson) ;;
  ret (basic group products).

(** [console.error] writes to the log and nothing else. *)
Definition supplementUpsellGroup (group : UpsellGroupFromDB)
           (adminClient : AdminApiContext) : M EnrichedUpsellGroup :=
  try_catch (supplement_body group adminClient)
            (fun error => ret (basic group [])).

Definition getUpsellGroup (id : Z) (shop : JsString) (adminClient : AdminApiContext)
  : M (option EnrichedUpsellGroup) :=
  group <- with_store (fun s => (db.findFirst id shop s, s)) ;;
  match group with
  | None => ret None
  | Some group => enriched <- supplementUpsellGroup group adminClient ;; ret (Some enriched)
  end.

(** [Promise.all] over the mapped groups: every enrichment starts, in
    order, and none rejects, so the results come back in the same order. *)
Definition getUpsellGroups (shop : JsString) (adminClient : AdminApiContext)
  : M (list EnrichedUpsellGroup) :=
  groups <- with_store (fun s => (db.findMany shop s, s)) ;;
  if (length groups =? 0)%nat then ret []
  else promise_all (fun group => supplementUpsellGroup group adminClient) groups.

Definition updateUpsellGroup (id : Z) (shop : JsString) (data : Candidate)
  : M (option UpsellGroupFromDB) :=
  invariant (ToBoolean (string_value (data_title data))) "Title is required" ;;
  invariant (ToBoolean (array_value (data_productIds data))
             && (0 <? array_length (data_productIds data))%nat)
            "Products are required" ;;
  match data_title data, data_productIds data with
  | Some title, Some productIds =>
      with_store (fun s => (tt, db.updateMany id shop title (JSON.stringify productIds) s)) ;;
      updatedGroup <- with_store (fun s => (db.findFirst id shop s, s)) ;;
      ret updatedGroup
  | _, _ => throw (TypeError "absent argument")   (* excluded by the assertions *)
  end.

Record Ack := { success : bool }.

Definition deleteUpsellGroup (id : Z) (shop : JsString) : M Ack :=
  with_store (fun s => (tt, db.deleteMany id shop s)) ;;
  ret {| success := true |}.

Definition searchProductsQuery : JsString := js "
      query searchProducts($query: String!) {
        products(first: 10, query: $query) {
          nodes {
            id
            title
            handle
            featuredImage {
              url
            }
          }
        }
      }
    ".

Definition searchProducts_call (query : JsString) : GraphqlCall :=
  {| gql_query := searchProductsQuery;
     gql_variables := JObj [(js "query", JStr (js "title:*" ++ query ++ js "*"))] |}.

(** [responseJson.data.products.nodes || []], each formatted. *)
Definition format_found (responseJson : Data) : Outcome (list ProductData) :=
  obind (get responseJson (js "data")) (fun data =>
  obind (get data (js "products")) (fun found =>
  obind (get found (js "nodes")) (fun nodes =>
  let productNodes := or_else nodes (JArr []) in
  array_map format_product productNodes))).

Definition searchProducts (shop : JsString) (query : JsString)
           (adminClient : AdminApiContext) : M (list ProductData) :=
  response <- graphql adminClient searchProductsQuery
                (JObj [(js "query", JStr (js "title:*" ++ query ++ js "*"))]) ;;
  responseJson <- lift response ;;
  products <- lift (format_found responseJson) ;;
  ret products.

(** Whether [needle] occurs in [text]. *)
Fixpoint starts_with (needle text : JsString) : bool :=
  match needle, text with
  | [], _ => true
  | a :: needle', b :: text' => (a =? b)%N && starts_with needle' text'
  | _ :: _, [] => false
  end.

Fixpoint includes (needle text : JsString) : bool :=
  starts_with needle text
  || match text with
     | [] => false
     | _ :: text' => includes needle text'
     end.

Local Close Scope service_scope.

(* ===================================================================== *)
(** * app/routes/api/upsell.ts *)
(* ===================================================================== *)

Module PublicEndpoint.
(** [data(body, { status })] of the framework: a body with the status it
    is to be sent with (none given means 200). *)
Record DataWithResponseInit := {
  body : Data;
  status : option Z
}.

Definition data (body : Data) (status : option Z) : DataWithResponseInit :=
  {| body := body; status := status |}.

Section Loader.
(** What a [cors] helper hands back: the response in its cross-origin
    envelope. *)
Variable Envelope : Type.

(** The host functions a checkout result may carry. *)
Definition HostFunction := DataWithResponseInit -> Outcome Envelope.
Definition HostVal := JsVal HostFunction.

(** [f(arg)] *)
Definition call (f : HostVal) (arg : DataWithResponseInit) : Outcome Envelope :=
  match f with
  | JFun g => g arg
  | _ => Throws (TypeError "cors is not a function")
  end.

Definition catch {A} (o : Outcome A) (h : Exn -> Outcome A) : Outcome A :=
  match o with
  | Returns a => Returns a
  | Throws e => h e
  end.

(** [checkout] is what [await authenticate.public.checkout(request)]
    does for this request, [findFirst] what
    [await db.product.findFirst({ where: { id: 1 } })] does. *)
Definition loader (checkout : Outcome HostVal) (findFirst : Outcome Data)
  : Outcome Envelope :=
  obind checkout (fun checkoutResult =>
  (* const { session } = (checkoutResult as any).session; *)
  obind (get checkoutResult (js "session")) (fun session_of_result =>
  obind (get session_of_result (js "session")) (fun session =>
  (* const { cors } = (checkoutResult as any).cors; *)
  obind (get checkoutResult (js "cors")) (fun cors_of_result =>
  obind (get cors_of_result (js "cors")) (fun cors =>
  if negb (ToBoolean session) then
    call cors (data (JObj [(js "error", JStr (js "Unauthorized"))]) (Some 401%Z))
  else
    catch
      (obind findFirst (fun upsellProducts =>
         call cors (data upsellProducts None)))
      (fun error =>
         call cors (data (JObj [(js "error", JStr (js "Internal Server Error"))])
                         (Some 500%Z)))))))).
End Loader.

Arguments call {Envelope} f arg.
Arguments loader {Envelope} checkout findFirst.
End PublicEndpoint.

(* ===================================================================== *)
(** * Notions the statements use, and sample data *)
(* ===================================================================== *)

(** The world after one more catalog call. *)
Definition after_call (w : World) (call : GraphqlCall) : World :=
  {| store := store w; clock := clock w; requests := requests w ++ [call] |}.

(** A row as [updateMany] rewrites it. *)
Definition rewritten (title productIds : JsString) (r : UpsellGroupFromDB)
  : UpsellGroupFromDB :=
  {| group_id := group_id r; group_title := title; group_shop := group_shop r;
     group_productIds := productIds; group_createdAt := group_createdAt r |}.

(** The 401 the public endpoint answers with. *)
Definition unauthorized : PublicEndpoint.DataWithResponseInit :=
  PublicEndpoint.data (JObj [(js "error", JStr (js "Unauthorized"))]) (Some 401%Z).

Definition empty_world : World :=
  {| store := {| rows := []; next_id := 1 |}; clock := 0; requests := [] |}.

Definition summer_row : UpsellGroupFromDB :=
  {| group_id := 1; group_title := js "Summer"; group_shop := js "a.myshopify.com";
     group_productIds := JSON.stringify [js "gid://shopify/Product/1"];
     group_createdAt := 1000 |}.

Definition winter_row : UpsellGroupFromDB :=
  {| group_id := 2; group_title := js "Winter"; group_shop := js "b.myshopify.com";
     group_productIds := JSON.stringify [js "gid://shopify/Product/2"];
     group_createdAt := 2000 |}.

(** Two shops, one group each. *)
Definition two_shops : World :=
  {| store := {| rows := [summer_row; winter_row]; next_id := 3 |};
     clock := 3000; requests := [] |}.

Definition two_ids_row : UpsellGroupFromDB :=
  {| group_id := 7; group_title := js "Summer"; group_shop := js "a.myshopify.com";
     group_productIds :=
       JSON.stringify [js "gid://shopify/Product/1"; js "gid://shopify/Product/2"];
     group_createdAt := 1000 |}.

(** One shop with one group of two products. *)
Definition one_group : World :=
  {| store := {| rows := [two_ids_row]; next_id := 8 |}; clock := 0; requests := [] |}.

(** Catalog nodes and responses. *)
Definition product_node (id title handle : string) : Data :=
  JObj [(js "id", JStr (js id)); (js "title", JStr (js title));
        (js "handle", JStr (js handle)); (js "featuredImage", JNull)].

Definition nodes_response (nodes : list Data) : Data :=
  JObj [(js "data", JObj [(js "nodes", JArr nodes)])].

Definition hat : Data := product_node "gid://shopify/Product/1" "Hat" "hat".

Definition scarf : Data := product_node "gid://shopify/Product/2" "Scarf" "scarf".

(** A client that answers any call with two products. *)
Definition generous_client : AdminApiContext :=
  fun _ _ => GraphqlResponds (Returns (nodes_response [hat; scarf])).

(** A catalog in which product 2 no longer exists. *)
Definition partial_client : AdminApiContext :=
  fun _ _ => GraphqlResponds (Returns (nodes_response [hat; JNull])).

(** A client whose call fails. *)
Definition failing_client : AdminApiContext :=
  fun _ _ => GraphqlRejects (HostError "network error").

(* ===================================================================== *)
(** * The list page: [truncate] *)
(* ===================================================================== *)

(** [str.slice(0, end)] for an integer [end]: a negative [end] counts from
    the back. *)
Definition slice_to (s : JsString) (end_ : Z) : JsString :=
  let len := Z.of_nat (length s) in
  let stop := if (end_ <? 0)%Z then Z.max (len + end_) 0 else Z.min end_ len in
  take (Z.to_nat stop) s.

(** The three characters the source appends to a shortened title. *)
Definition ellipsis : JsString := [226; 8364; 166]%N.

(** [truncate(str, { length = 25 } = {})]; [None] for [length] is an
    options object that is absent or has no [length]. *)
Definition truncate (str : option JsString) (length_option : option Z) : JsString :=
  let length_ := default 25%Z length_option in
  if negb (ToBoolean (string_value str)) then []
  else
    let s := default [] str in
    if (Z.of_nat (length s) <=? length_)%Z then s
    else slice_to s length_ ++ ellipsis.

(* ===================================================================== *)
(** * The edit page: loader, action and the form handlers *)
(* ===================================================================== *)

(** [(x as string) || fallback] for a value that is a string or [null]. *)
Definition or_else_string (x : option JsString) (fallback : JsString) : JsString :=
  match x with
  | Some (c :: s) => c :: s
  | Some [] | None => fallback
  end.

(** The conversion to [USVString], which is what [toWellFormed()] does: a
    surrogate code unit that is not half of a pair becomes U+FFFD. *)
Definition is_surrogate (c : CodeUnit) : bool :=
  JSON.is_high_surrogate c || JSON.is_low_surrogate c.

Fixpoint toWellFormed (s : JsString) : JsString :=
  match s with
  | [] => []
  | c :: rest =>
      match rest with
      | d :: rest' =>
          if JSON.is_high_surrogate c && JSON.is_low_surrogate d
          then c :: d :: toWellFormed rest'
          else (if is_surrogate c then 65533%N else c) :: toWellFormed rest
      | [] => [if is_surrogate c then 65533%N else c]
      end
  end.

(** [isWellFormed()]: no surrogate code unit outside a pair. *)
Fixpoint isWellFormed (s : JsString) : bool :=
  match s with
  | [] => true
  | c :: rest =>
      match rest with
      | d :: rest' =>
          if JSON.is_high_surrogate c && JSON.is_low_surrogate d
          then isWellFormed rest'
          else negb (is_surrogate c) && isWellFormed rest
      | [] => negb (is_surrogate c)
      end
  end.

(** [`${n}`] for an integer. *)
Definition number_to_string (n : Z) : JsString :=
  js (NilZero.string_of_int (Z.to_int n)).

Module UpsellRoute.
(** What [authenticate.admin(request)] resolves to: the catalog client and
    the shop of the session. *)
Record AdminContext := {
  admin : AdminApiContext;
  session_shop : JsString
}.

(** [FormData] with string values: entries in the order they were
    appended.  [append(name, value)] takes both arguments as [USVString], so
    what it stores is well formed; the form encoding carries such entries to
    the action as they are. *)
Definition FormData := list (JsString * JsString).

Definition form_append (name value : JsString) (fd : FormData) : FormData :=
  fd ++ [(toWellFormed name, toWellFormed value)].

(** [formData.get(name)]: the first value under [name], or [null]. *)
Fixpoint form_get (name : JsString) (fd : FormData) : option JsString :=
  match fd with
  | [] => None
  | (n, v) :: rest => if bool_decide (n = name) then Some v else form_get name rest
  end.

(** [formData.getAll(name)] *)
Fixpoint form_getAll (name : JsString) (fd : FormData) : list JsString :=
  match fd with
  | [] => []
  | (n, v) :: rest =>
      if bool_decide (n = name) then v :: form_getAll name rest
      else form_getAll name rest
  end.

Inductive Body :=
| BlankForm                              (* { title: "", products: [] } *)
| Group (group : EnrichedUpsellGroup)
| Errors (errors : Data).                (* { errors } *)

Inductive Response :=
| Json (body : Body) (status : option Z)
| Redirect (location : JsString).

(** The form state of the page. *)
Record Product := {
  picked_id : JsString;
  picked_title : JsString;
  picked_handle : option JsString;
  picked_imageUrl : option JsString
}.

Record FormState := {
  form_title : JsString;
  form_products : list Product
}.

(** [handleSave]: the form it submits. *)
Definition handleSave (formState : FormState) : FormData :=
  let fd := form_append (js "title")
              (or_else_string (Some (form_title formState)) (js "")) [] in
  fold_left (fun fd product => form_append (js "productIds[]") (picked_id product) fd)
            (form_products formState) fd.

(** [handleDelete]: the form it submits. *)
Definition handleDelete : FormData :=
  form_append (js "action") (js "delete") [].

(** [handleRemoveProduct(productId)] *)
Definition handleRemoveProduct (productId : JsString) (formState : FormState)
  : FormState :=
  {| form_title := form_title formState;
     form_products :=
       List.filter (fun product => negb (bool_decide (picked_id product = productId)))
                   (form_products formState) |}.

Section Handlers.
(** [Number(params.id)].  The handlers are modelled for the requests whose
    [params.id] is ["new"] or a text that [Number] reads as an integer, which
    is what the pages link to; the conversion itself is taken as given. *)
Variable Number : JsString -> Z.

Local Open Scope service_scope.

(** [auth] is what [await authenticate.admin(request)] does. *)
Definition loader (auth : Outcome AdminContext) (params_id : JsString) : M Response :=
  context <- lift auth ;;
  if bool_decide (params_id = js "new") then ret (Json BlankForm None)
  else
    group <- getUpsellGroup (Number params_id) (session_shop context) (admin context) ;;
    match group with
    | None => ret (Redirect (js "/app/upsells"))
    | Some group => ret (Json (Group group) None)
    end.

Definition action (auth : Outcome AdminContext) (params_id : JsString)
           (formData : FormData) : M Response :=
  context <- lift auth ;;
  let shop := session_shop context in
  let actionField := form_get (js "action") formData in
  if bool_decide (actionField = Some (js "delete")) then
    deleteUpsellGroup (Number params_id) shop ;;
    ret (Redirect (js "/app/upsells"))
  else
    let data :=
      {| data_title :=
           Some (or_else_string (form_get (js "title") formData) (js ""));
         data_productIds := Some (form_getAll (js "productIds[]") formData) |} in
    let errors := validateUpsellGroup data in
    if ToBoolean errors then ret (Json (Errors errors) (Some 422%Z))
    else
      group <- (if bool_decide (params_id = js "new")
                then created <- createUpsellGroup shop (data_title data)
                                                   (data_productIds data) ;;
                     ret (Some created)
                else updateUpsellGroup (Number params_id) shop data) ;;
      match group with
      | Some group =>
          ret (Redirect (js "/app/upsell/" ++ number_to_string (group_id group)))
      | None => throw (TypeError "Cannot read properties of null")
      end.
End Handlers.
End UpsellRoute.

(* ===================================================================== *)
(** * More notions the statements use *)
(* ===================================================================== *)

(** The catalog call enriching a row issues, if its [productIds] decode. *)
Definition catalog_call_of (group : UpsellGroupFromDB) : option GraphqlCall :=
  match JSON.parse (group_productIds group) with
  | Returns productIds => Some (getProductNodes_call productIds)
  | Throws _ => None
  end.

(** The 500 the public endpoint answers with. *)
Definition server_error : PublicEndpoint.DataWithResponseInit :=
  PublicEndpoint.data (JObj [(js "error", JStr (js "Internal Server Error"))])
                      (Some 500%Z).

Definition defined {F} (v : JsVal F) : Prop :=
  match v with
  | JUndefined => False
  | _ => True
  end.

(** A checkout result shaped the way the public loader reads it, with a
    helper that hands the response back as it is. *)
Definition nested_checkout (session : PublicEndpoint.HostVal PublicEndpoint.DataWithResponseInit)
  : PublicEndpoint.HostVal PublicEndpoint.DataWithResponseInit :=
  JObj [(js "session", JObj [(js "session", session)]);
        (js "cors", JObj [(js "cors", JFun (fun response => Returns response))])].

(** Route parameters in decimal, for the examples. *)
Definition decimal_param (s : JsString) : Z :=
  fold_left (fun acc c => acc * 10 + (Z.of_N c - 48))%Z s 0%Z.

Definition shop_a_admin : UpsellRoute.AdminContext :=
  {| UpsellRoute.admin := partial_client;
     UpsellRoute.session_shop := js "a.myshopify.com" |}.

(** The enriched record [supplementUpsellGroup] returns (it always returns
    one). *)
Definition fst_enriched (group : UpsellGroupFromDB) (adminClient : AdminApiContext)
           (w : World) : EnrichedUpsellGroup :=
  match fst (supplementUpsellGroup group adminClient w) with
  | Returns enriched => enriched
  | Throws _ => basic group []
  end.

(** A search response with the given node list. *)
Definition products_response (nodes : Data) : Data :=
  JObj [(js "data", JObj [(js "products", JObj [(js "nodes", nodes)])])].

(** A client that answers a search with a hat and a hole. *)
Definition holey_search_client : AdminApiContext :=
  fun _ _ => GraphqlResponds (Returns (products_response (JArr [hat; JNull]))).

(** The candidate the edit page's action reads from a form: both members
    present. *)
Definition submitted (formData : UpsellRoute.FormData) : Candidate :=
  {| data_title :=
       Some (or_else_string (UpsellRoute.form_get (js "title") formData) (js ""));
     data_productIds := Some (UpsellRoute.form_getAll (js "productIds[]") formData) |}.

(* ===================================================================== *)
(** * Facts about JSON text *)
(* ===================================================================== *)

Module JSONFacts.
Import JSON.
Local Open Scope N_scope.

Lemma hex_value_digit (d : N) : d < 16 -> hex_value (hex_digit d) = Some d.
Proof.
  intros Hd. unfold hex_value, hex_digit.
  destruct (N.ltb_spec d 10) as [Hlt | Hge].
  - replace (48 <=? 48 + d) with true by (symmetry; apply N.leb_le; lia).
    replace (48 + d <=? 57) with true by (symmetry; apply N.leb_le; lia).
    simpl. f_equal. lia.
  - replace (48 <=? 87 + d) with true by (symmetry; apply N.leb_le; lia).
    replace (87 + d <=? 57) with false by (symmetry; apply N.leb_gt; lia).
    replace (97 <=? 87 + d) with true by (symmetry; apply N.leb_le; lia).
    replace (87 + d <=? 102) with true by (symmetry; apply N.leb_le; lia).
    simpl. f_equal. lia.
Qed.

Lemma hex4_digits (c : CodeUnit) :
  valid_unit c ->
  hex4 (hex_digit (c / 4096 mod 16)) (hex_digit (c / 256 mod 16))
       (hex_digit (c / 16 mod 16)) (hex_digit (c mod 16)) = Some c.
Proof.
  unfold valid_unit. intros Hc. unfold hex4.
  rewrite !hex_value_digit by (apply N.mod_lt; discriminate).
  f_equal.
  replace (c / 4096) with (c / 16 / 16 / 16) by (rewrite !N.Div0.div_div; reflexivity).
  replace (c / 256) with (c / 16 / 16) by (rewrite !N.Div0.div_div; reflexivity).
  assert (Hnz : 16 <> 0) by discriminate.
  pose proof (N.div_mod c 16 Hnz) as E0. pose proof (N.mod_lt c 16 Hnz) as L0.
  pose proof (N.div_mod (c / 16) 16 Hnz) as E1.
  pose proof (N.mod_lt (c / 16) 16 Hnz) as L1.
  pose proof (N.div_mod (c / 16 / 16) 16 Hnz) as E2.
  pose proof (N.mod_lt (c / 16 / 16) 16 Hnz) as L2.
  pose proof (N.div_mod (c / 16 / 16 / 16) 16 Hnz) as E3.
  pose proof (N.mod_lt (c / 16 / 16 / 16) 16 Hnz) as L3.
  generalize dependent (c / 16 / 16 / 16 / 16). 
  generalize dependent ((c / 16 / 16 / 16) mod 16).
  generalize dependent (c / 16 / 16 / 16). 
  generalize dependent ((c / 16 / 16) mod 16).
  generalize dependent (c / 16 / 16). 
  generalize dependent ((c / 16) mod 16).
  generalize dependent (c / 16). 
  generalize dependent (c mod 16).
  intros. lia.
Qed.

Lemma parse_chars_unicode_escape (h3 h2 h1 h0 : CodeUnit) (tail : JsString) :
  parse_chars (92 :: 117 :: h3 :: h2 :: h1 :: h0 :: tail) =
  match hex4 h3 h2 h1 h0 with
  | Some u => push u (parse_chars tail)
  | None => None
  end.
Proof. reflexivity. Qed.

Lemma parse_chars_plain (c : CodeUnit) (tail : JsString) :
  c <> 34 -> c <> 92 -> 32 <= c ->
  parse_chars (c :: tail) = push c (parse_chars tail).
Proof.
  intros H34 H92 H32. cbn [parse_chars].
  destruct (N.eqb_spec c 34); [contradiction |].
  destruct (N.eqb_spec c 92); [contradiction |].
  destruct (N.ltb_spec c 32); [lia | reflexivity].
Qed.

(** Reading back one quoted code unit. *)
(** A unit that is written as [\uXXXX] has four hexadecimal digits. *)
Lemma escaped_unit_valid (c : CodeUnit) :
  (c <? 32) || is_high_surrogate c || is_low_surrogate c = true -> valid_unit c.
Proof.
  unfold is_high_surrogate, is_low_surrogate, valid_unit. intros H.
  destruct (N.ltb_spec c 32), (N.leb_spec 55296 c), (N.leb_spec c 56319),
    (N.leb_spec 56320 c), (N.leb_spec c 57343);
    simpl in H; try discriminate; lia.
Qed.

Lemma parse_chars_quote_unit (c : CodeUnit) (tail : JsString) :
  parse_chars (quote_unit c ++ tail) = push c (parse_chars tail).
Proof.
  unfold quote_unit.
  destruct (N.eqb_spec c 8) as [-> | N8]; [reflexivity |].
  destruct (N.eqb_spec c 9) as [-> | N9]; [reflexivity |].
  destruct (N.eqb_spec c 10) as [-> | N10]; [reflexivity |].
  destruct (N.eqb_spec c 12) as [-> | N12]; [reflexivity |].
  destruct (N.eqb_spec c 13) as [-> | N13]; [reflexivity |].
  destruct (N.eqb_spec c 34) as [-> | N34]; [reflexivity |].
  destruct (N.eqb_spec c 92) as [-> | N92]; [reflexivity |].
  destruct ((c <? 32) || is_high_surrogate c || is_low_surrogate c) eqn:Hesc.
  - unfold unicode_escape. cbn [app].
    rewrite parse_chars_unicode_escape, hex4_digits
      by exact (escaped_unit_valid c Hesc).
    reflexivity.
  - cbn [app]. apply parse_chars_plain; try assumption.
    apply orb_false_elim in Hesc as [Hesc _].
    apply orb_false_elim in Hesc as [Hlt _].
    apply N.ltb_ge in Hlt. exact Hlt.
Qed.

Lemma parse_chars_surrogate (c : CodeUnit) (tail : JsString) :
  is_high_surrogate c || is_low_surrogate c = true ->
  parse_chars (c :: tail) = push c (parse_chars tail).
Proof.
  unfold is_high_surrogate, is_low_surrogate. intros H.
  apply parse_chars_plain.
  all: destruct (N.leb_spec 55296 c), (N.leb_spec c 56319),
         (N.leb_spec 56320 c), (N.leb_spec c 57343);
       simpl in H; try discriminate; lia.
Qed.

Lemma quote_units_pair (c d : CodeUnit) (s : JsString) :
  quote_units (c :: d :: s) =
  if is_high_surrogate c && is_low_surrogate d
  then c :: d :: quote_units s
  else quote_unit c ++ quote_units (d :: s).
Proof. reflexivity. Qed.

(** Reading back a quoted string: the characters come back unchanged and
    the reader stops right after the closing quote. *)
Lemma parse_chars_quote_units (s rest : JsString) :
  parse_chars (quote_units s ++ 34 :: rest) = Some (s, rest).
Proof.
  remember (length s) as n eqn:Hn.
  revert s Hn. induction (lt_wf n) as [n _ IH]. intros s ->.
  destruct s as [| c s'].
  - reflexivity.
  - destruct s' as [| d s''].
    + cbn [quote_units]. rewrite parse_chars_quote_unit. reflexivity.
    + rewrite quote_units_pair.
      destruct (is_high_surrogate c && is_low_surrogate d) eqn:Hpair.
      * apply andb_prop in Hpair as [Hhi Hlo].
        cbn [app].
        rewrite parse_chars_surrogate by (rewrite Hhi; reflexivity).
        rewrite parse_chars_surrogate by (rewrite Hlo; apply orb_true_r).
        rewrite (IH (length s'') ltac:(cbn [length]; lia) s'' eq_refl).
        reflexivity.
      * rewrite <- app_assoc, parse_chars_quote_unit.
        rewrite (IH (length (d :: s'')) ltac:(cbn [length]; lia) (d :: s'') eq_refl).
        reflexivity.
Qed.

Lemma parse_value_quote (fuel : nat) (tail : JsString) :
  parse_value (S fuel) (34 :: tail) =
  pbind (of_option (parse_chars tail)) (fun str r => Parse (JStr str) r).
Proof. reflexivity. Qed.

Lemma parse_value_string (fuel : nat) (s rest : JsString) :
  parse_value (S fuel) (quote s ++ rest) = Parse (JStr s) rest.
Proof.
  unfold quote. cbn [app].
  rewrite parse_value_quote, <- app_assoc. cbn [app].
  rewrite parse_chars_quote_units. reflexivity.
Qed.

Lemma parse_value_bracket (fuel : nat) (tail : JsString) :
  parse_value (S fuel) (91 :: 34 :: tail) =
  pbind (parse_elements fuel (34 :: tail)) (fun vs r' => Parse (JArr vs) r').
Proof. reflexivity. Qed.

Lemma parse_elements_step (fuel : nat) (s : JsString) :
  parse_elements (S fuel) s =
  pbind (parse_value fuel s) (fun v r =>
    match skip_ws r with
    | d :: r' =>
        if d =? 44 then pbind (parse_elements fuel r') (fun vs r'' => Parse (v :: vs) r'')
        else if d =? 93 then Parse [v] r'
        else Reject
    | [] => Reject
    end).
Proof. reflexivity. Qed.

Lemma join_elements_cons (x y : JsString) (l : list JsString) :
  join_elements (x :: y :: l) = x ++ 44 :: join_elements (y :: l).
Proof. reflexivity. Qed.

(** The elements of a serialized string array, read back. *)
Lemma parse_elements_strings (l : list JsString) :
  forall (x : JsString) (rest : JsString) (fuel : nat),
    (length (x :: l) < fuel)%nat ->
    parse_elements fuel (join_elements (quote <$> x :: l) ++ 93 :: rest) =
    Parse (JStr <$> x :: l) rest.
Proof.
  induction l as [| y l IH]; intros x rest fuel Hfuel.
  - destruct fuel as [| [| fuel]]; cbn [length] in Hfuel; try lia.
    rewrite parse_elements_step. cbn [fmap list_fmap join_elements].
    rewrite parse_value_string. reflexivity.
  - destruct fuel as [| fuel]; cbn [length] in Hfuel; try lia.
    rewrite parse_elements_step.
    change (quote <$> x :: y :: l) with (quote x :: (quote <$> y :: l)).
    destruct fuel as [| fuel]; [lia |].
    rewrite fmap_cons, join_elements_cons, <- app_assoc. cbn [app].
    rewrite parse_value_string.
    cbn [pbind skip_ws is_ws N.eqb Pos.eqb orb].
    change (44 =? 44) with true. cbv iota.
    rewrite <- fmap_cons.
    rewrite (IH y rest (S fuel)).
    + reflexivity.
    + cbn [length] in *. lia.
Qed.

Lemma length_join_elements (l : list JsString) :
  (length l <= length (join_elements (quote <$> l)))%nat.
Proof.
  induction l as [| x [| y l] IH].
  - reflexivity.
  - cbn. lia.
  - rewrite fmap_cons. change (quote <$> y :: l) with (quote y :: (quote <$> l)).
    rewrite join_elements_cons, length_app. cbn [length].
    change (quote y :: (quote <$> l)) with (quote <$> y :: l).
    cbn [length] in IH. lia.
Qed.

(** Serialize-then-decode: [JSON.parse(JSON.stringify(ids))] is the array
    of the same strings. *)
Lemma parse_stringify (ids : list JsString) :
  parse (stringify ids) = Returns (JArr (JStr <$> ids)).
Proof.
  unfold parse.
  replace (2 * length (stringify ids) + 1)%nat
    with (S (2 * length (stringify ids))) by lia.
  destruct ids as [| x l].
  - reflexivity.
  - unfold stringify at 2.
    assert (Hfuel : (length (x :: l) < 2 * length (stringify (x :: l)))%nat).
    { unfold stringify. cbn [length]. rewrite length_app.
      pose proof (length_join_elements (x :: l)) as Hlen.
      cbn [length] in *. lia. }
    remember (2 * length (stringify (x :: l)))%nat as fuel eqn:Hf. clear Hf.
    assert (Hstart : exists tail,
               join_elements (quote <$> x :: l) ++ [93] = 34 :: tail).
    { destruct l as [| y l]; unfold quote; cbn; eauto. }
    destruct Hstart as [tail Htail].
    rewrite Htail, parse_value_bracket, <- Htail.
    match goal with
    | |- context [parse_elements fuel ?text] =>
        replace (parse_elements fuel text) with (Parse (JStr <$> x :: l : list Data) [])
          by (symmetry; exact (parse_elements_strings l x [] fuel Hfuel))
    end.
    reflexivity.
Qed.

(** ** Every reader consumes input, so the fuel of [parse] is never used up *)

Lemma skip_ws_length (s : JsString) : (length (skip_ws s) <= length s)%nat.
Proof.
  induction s as [| c s IH]; cbn [skip_ws length]; [lia |].
  destruct (is_ws c); cbn [length]; lia.
Qed.

Lemma skip_ws_cons (s : JsString) (c : CodeUnit) (rest : JsString) :
  skip_ws s = c :: rest -> (length rest < length s)%nat.
Proof.
  intros H. pose proof (skip_ws_length s) as Hlen.
  rewrite H in Hlen. cbn [length] in Hlen. lia.
Qed.

Lemma push_Some (c : CodeUnit) (r : option (JsString * JsString))
      (str rest : JsString) :
  push c r = Some (str, rest) -> exists str', r = Some (str', rest).
Proof.
  destruct r as [[str' rest'] |]; cbn [push]; [| discriminate].
  intros [= _ <-]. eauto.
Qed.

Lemma parse_chars_length (s : JsString) :
  forall str r, parse_chars s = Some (str, r) -> (length r < length s)%nat.
Proof.
  remember (length s) as n eqn:Hn. revert s Hn.
  induction (lt_wf n) as [n _ IH]. intros s -> str r.
  destruct s as [| c rest]; [discriminate |].
  cbn [parse_chars].
  destruct (c =? 34).
  { intros [= _ <-]. cbn [length]. lia. }
  destruct (c =? 92).
  - destruct rest as [| e rest']; [discriminate |].
    destruct (e =? 117).
    + destruct rest' as [| h3 [| h2 [| h1 [| h0 rest'']]]]; try discriminate.
      destruct (hex4 h3 h2 h1 h0); [| discriminate].
      intros H. apply push_Some in H as [str' H].
      apply (IH (length rest'')) in H; cbn [length] in *; try lia.
    + destruct (simple_escape e); [| discriminate].
      intros H. apply push_Some in H as [str' H].
      apply (IH (length rest')) in H; cbn [length] in *; try lia.
  - destruct (c <? 32); [discriminate |].
    intros H. apply push_Some in H as [str' H].
    apply (IH (length rest)) in H; cbn [length] in *; try lia.
Qed.

Lemma strip_prefix_length (p : JsString) :
  forall s r, strip_prefix p s = Some r -> (length r + length p = length s)%nat.
Proof.
  induction p as [| a p IH]; intros s r; cbn [strip_prefix].
  - intros [= ->]. cbn [length]. lia.
  - destruct s as [| b s]; [discriminate |].
    destruct (a =? b); [| discriminate].
    intros H. apply IH in H. cbn [length]. lia.
Qed.

Lemma take_digits_length (s : JsString) :
  (length (snd (take_digits s)) <= length s)%nat.
Proof.
  induction s as [| c s IH]; cbn [take_digits]; [cbn; lia |].
  destruct (is_digit c); [| cbn; lia].
  destruct (take_digits s) as [ds r]. cbn [snd length] in *. lia.
Qed.

Lemma parse_int_length (s : JsString) ds r :
  parse_int s = Some (ds, r) -> (length r < length s)%nat.
Proof.
  unfold parse_int. destruct s as [| c rest]; [discriminate |].
  destruct (c =? 48).
  { intros [= _ <-]. cbn [length]. lia. }
  destruct (is_digit c) eqn:Hd; [| discriminate].
  cbn [take_digits]. rewrite Hd.
  pose proof (take_digits_length rest) as Hlen.
  destruct (take_digits rest) as [ds' r']. cbn [snd] in Hlen.
  intros [= _ <-]. cbn [length]. lia.
Qed.

Lemma parse_frac_length (s : JsString) ds r :
  parse_frac s = Some (ds, r) -> (length r <= length s)%nat.
Proof.
  unfold parse_frac. destruct s as [| c rest].
  { intros [= _ <-]. reflexivity. }
  destruct (c =? 46).
  - pose proof (take_digits_length rest) as Hlen.
    destruct (take_digits rest) as [[| d ds'] r']; [discriminate |].
    cbn [snd] in Hlen. intros [= _ <-]. cbn [length]. lia.
  - intros [= _ <-]. reflexivity.
Qed.

Lemma parse_exp_length (s : JsString) e r :
  parse_exp s = Some (e, r) -> (length r <= length s)%nat.
Proof.
  unfold parse_exp. destruct s as [| c rest].
  { intros [= _ <-]. reflexivity. }
  destruct ((c =? 101) || (c =? 69)).
  - assert (Hsign : forall neg rest',
               (neg, rest') =
               match rest with
               | sg :: r0 => if sg =? 45 then (true, r0)
                             else if sg =? 43 then (false, r0) else (false, rest)
               | [] => (false, rest)
               end -> (length rest' <= length rest)%nat).
    { intros neg rest'. destruct rest as [| sg r0].
      - intros [= _ ->]. reflexivity.
      - destruct (sg =? 45); [intros [= _ ->]; cbn [length]; lia |].
        destruct (sg =? 43); intros [= _ ->]; cbn [length]; lia. }
    destruct (match rest with
              | sg :: r0 => if sg =? 45 then (true, r0)
                            else if sg =? 43 then (false, r0) else (false, rest)
              | [] => (false, rest)
              end) as [neg rest'] eqn:Hs.
    specialize (Hsign neg rest' eq_refl).
    pose proof (take_digits_length rest') as Hlen.
    destruct (take_digits rest') as [[| d ds'] r']; [discriminate |].
    cbn [snd] in Hlen. intros [= _ <-]. cbn [length]. lia.
  - intros [= _ <-]. reflexivity.
Qed.

Lemma parse_number_length (s : JsString) n r :
  parse_number s = Some (n, r) -> (length r < length s)%nat.
Proof.
  unfold parse_number.
  assert (Hsign : forall neg s1,
             (neg, s1) =
             match s with
             | c :: rest => if c =? 45 then (true, rest) else (false, s)
             | [] => (false, s)
             end -> (length s1 <= length s)%nat).
  { intros neg s1. destruct s as [| c rest].
    - intros [= _ ->]. reflexivity.
    - destruct (c =? 45); intros [= _ ->]; cbn [length]; lia. }
  destruct (match s with
            | c :: rest => if c =? 45 then (true, rest) else (false, s)
            | [] => (false, s)
            end) as [neg s1] eqn:Hs.
  specialize (Hsign neg s1 eq_refl).
  destruct (parse_int s1) as [[ids s2] |] eqn:Hint; [| discriminate].
  destruct (parse_frac s2) as [[fds s3] |] eqn:Hfrac; [| discriminate].
  destruct (parse_exp s3) as [[e s4] |] eqn:Hexp; [| discriminate].
  intros [= _ <-].
  apply parse_int_length in Hint. apply parse_frac_length in Hfrac.
  apply parse_exp_length in Hexp. lia.
Qed.

Lemma parse_literal_length (s : JsString) v r :
  parse_literal s = Some (v, r) -> (length r < length s)%nat.
Proof.
  unfold parse_literal.
  destruct (strip_prefix (js "true") s) as [r1 |] eqn:H1.
  { intros [= _ <-]. apply strip_prefix_length in H1. cbn in H1. lia. }
  destruct (strip_prefix (js "false") s) as [r2 |] eqn:H2.
  { intros [= _ <-]. apply strip_prefix_length in H2. cbn in H2. lia. }
  destruct (strip_prefix (js "null") s) as [r3 |] eqn:H3.
  { intros [= _ <-]. apply strip_prefix_length in H3. cbn in H3. lia. }
  destruct (parse_number s) as [[n r4] |] eqn:H4; [| discriminate].
  intros [= _ <-]. eapply parse_number_length, H4.
Qed.

Lemma parse_value_step (fuel : nat) (s : JsString) :
  parse_value (S fuel) s =
  match skip_ws s with
  | [] => Reject
  | c :: rest =>
      if c =? 34 then
        pbind (of_option (parse_chars rest)) (fun str r => Parse (JStr str) r)
      else if c =? 91 then
        match skip_ws rest with
        | d :: r =>
            if d =? 93 then Parse (JArr []) r
            else pbind (parse_elements fuel rest) (fun vs r' => Parse (JArr vs) r')
        | [] => Reject
        end
      else if c =? 123 then
        match skip_ws rest with
        | d :: r =>
            if d =? 125 then Parse (JObj []) r
            else pbind (parse_members fuel rest) (fun ms r' => Parse (object_of ms) r')
        | [] => Reject
        end
      else of_option (parse_literal (c :: rest))
  end.
Proof. reflexivity. Qed.

Lemma parse_members_step (fuel : nat) (s : JsString) :
  parse_members (S fuel) s =
  match skip_ws s with
  | q :: r =>
      if q =? 34 then
        pbind (of_option (parse_chars r)) (fun key r1 =>
          match skip_ws r1 with
          | colon :: r2 =>
              if colon =? 58 then
                pbind (parse_value fuel r2) (fun v r3 =>
                  match skip_ws r3 with
                  | d :: r4 =>
                      if d =? 44 then
                        pbind (parse_members fuel r4)
                              (fun ms r5 => Parse ((key, v) :: ms) r5)
                      else if d =? 125 then Parse [(key, v)] r4
                      else Reject
                  | [] => Reject
                  end)
              else Reject
          | [] => Reject
          end)
      else Reject
  | [] => Reject
  end.
Proof. reflexivity. Qed.

Lemma readers_consume (fuel : nat) :
  (forall s v r, parse_value fuel s = Parse v r -> (length r < length s)%nat) /\
  (forall s vs r, parse_elements fuel s = Parse vs r -> (length r < length s)%nat) /\
  (forall s ms r, parse_members fuel s = Parse ms r -> (length r < length s)%nat).
Proof.
  induction fuel as [| fuel (IHv & IHe & IHm)].
  { repeat split; intros; discriminate. }
  repeat split.
  - intros s v r. rewrite parse_value_step.
    destruct (skip_ws s) as [| c rest] eqn:Hs; [discriminate |].
    apply skip_ws_cons in Hs.
    destruct (c =? 34).
    { destruct (parse_chars rest) as [[str r1] |] eqn:Hc;
        cbn [of_option pbind]; [| discriminate].
      intros [= _ <-]. apply parse_chars_length in Hc. lia. }
    destruct (c =? 91).
    { destruct (skip_ws rest) as [| d r0] eqn:Hr; [discriminate |].
      apply skip_ws_cons in Hr.
      destruct (d =? 93); [intros [= _ <-]; lia |].
      destruct (parse_elements fuel rest) eqn:He; cbn [pbind]; try discriminate.
      intros [= _ <-]. apply IHe in He. lia. }
    destruct (c =? 123).
    { destruct (skip_ws rest) as [| d r0] eqn:Hr; [discriminate |].
      apply skip_ws_cons in Hr.
      destruct (d =? 125); [intros [= _ <-]; lia |].
      destruct (parse_members fuel rest) eqn:He; cbn [pbind]; try discriminate.
      intros [= _ <-]. apply IHm in He. lia. }
    destruct (parse_literal (c :: rest)) as [[v' r'] |] eqn:Hl;
      cbn [of_option]; [| discriminate].
    intros [= _ <-]. apply parse_literal_length in Hl. cbn [length] in Hl. lia.
  - intros s vs r. rewrite parse_elements_step.
    destruct (parse_value fuel s) as [v r1 | |] eqn:Hv; cbn [pbind]; try discriminate.
    apply IHv in Hv.
    destruct (skip_ws r1) as [| d r'] eqn:Hr; [discriminate |].
    apply skip_ws_cons in Hr.
    destruct (d =? 44).
    { destruct (parse_elements fuel r') eqn:He; cbn [pbind]; try discriminate.
      intros [= _ <-]. apply IHe in He. lia. }
    destruct (d =? 93); [| discriminate].
    intros [= _ <-]. lia.
  - intros s ms r. rewrite parse_members_step.
    destruct (skip_ws s) as [| q r0] eqn:Hs; [discriminate |].
    apply skip_ws_cons in Hs.
    destruct (q =? 34); [| discriminate].
    destruct (parse_chars r0) as [[key r1] |] eqn:Hc;
      cbn [of_option pbind]; [| discriminate].
    apply parse_chars_length in Hc.
    destruct (skip_ws r1) as [| colon r2] eqn:Hr1; [discriminate |].
    apply skip_ws_cons in Hr1.
    destruct (colon =? 58); [| discriminate].
    destruct (parse_value fuel r2) as [v r3 | |] eqn:Hv; cbn [pbind]; try discriminate.
    apply IHv in Hv.
    destruct (skip_ws r3) as [| d r4] eqn:Hr3; [discriminate |].
    apply skip_ws_cons in Hr3.
    destruct (d =? 44).
    { destruct (parse_members fuel r4) eqn:Hm; cbn [pbind]; try discriminate.
      intros [= _ <-]. apply IHm in Hm. lia. }
    destruct (d =? 125); [| discriminate].
    intros [= _ <-]. lia.
Qed.

Lemma readers_fuel (fuel : nat) :
  (forall s, (2 * length s < fuel)%nat -> parse_value fuel s <> OutOfFuel) /\
  (forall s, (2 * length s + 1 < fuel)%nat -> parse_elements fuel s <> OutOfFuel) /\
  (forall s, (2 * length s + 1 < fuel)%nat -> parse_members fuel s <> OutOfFuel).
Proof.
  induction fuel as [| fuel (IHv & IHe & IHm)].
  { repeat split; intros; lia. }
  destruct (readers_consume fuel) as (Cv & Ce & Cm).
  repeat split.
  - intros s Hf. rewrite parse_value_step.
    destruct (skip_ws s) as [| c rest] eqn:Hs; [discriminate |].
    apply skip_ws_cons in Hs.
    destruct (c =? 34).
    { destruct (parse_chars rest) as [[str r1] |]; discriminate. }
    destruct (c =? 91).
    { destruct (skip_ws rest) as [| d r0] eqn:Hr; [discriminate |].
      destruct (d =? 93); [discriminate |].
      specialize (IHe rest ltac:(lia)).
      destruct (parse_elements fuel rest); cbn [pbind]; congruence. }
    destruct (c =? 123).
    { destruct (skip_ws rest) as [| d r0] eqn:Hr; [discriminate |].
      destruct (d =? 125); [discriminate |].
      specialize (IHm rest ltac:(lia)).
      destruct (parse_members fuel rest); cbn [pbind]; congruence. }
    destruct (parse_literal (c :: rest)) as [[v' r'] |]; discriminate.
  - intros s Hf. rewrite parse_elements_step.
    specialize (IHv s ltac:(lia)).
    destruct (parse_value fuel s) as [v r1 | |] eqn:Hv; cbn [pbind];
      try congruence.
    apply Cv in Hv.
    destruct (skip_ws r1) as [| d r'] eqn:Hr; [discriminate |].
    apply skip_ws_cons in Hr.
    destruct (d =? 44).
    { specialize (IHe r' ltac:(lia)).
      destruct (parse_elements fuel r'); cbn [pbind]; congruence. }
    destruct (d =? 93); discriminate.
  - intros s Hf. rewrite parse_members_step.
    destruct (skip_ws s) as [| q r0] eqn:Hs; [discriminate |].
    apply skip_ws_cons in Hs.
    destruct (q =? 34); [| discriminate].
    destruct (parse_chars r0) as [[key r1] |] eqn:Hc;
      cbn [of_option pbind]; [| discriminate].
    apply parse_chars_length in Hc.
    destruct (skip_ws r1) as [| colon r2] eqn:Hr1; [discriminate |].
    apply skip_ws_cons in Hr1.
    destruct (colon =? 58); [| discriminate].
    specialize (IHv r2 ltac:(lia)).
    destruct (parse_value fuel r2) as [v r3 | |] eqn:Hv; cbn [pbind];
      try congruence.
    apply Cv in Hv.
    destruct (skip_ws r3) as [| d r4] eqn:Hr3; [discriminate |].
    apply skip_ws_cons in Hr3.
    destruct (d =? 44).
    { specialize (IHm r4 ltac:(lia)).
      destruct (parse_members fuel r4); cbn [pbind]; congruence. }
    destruct (d =? 125); discriminate.
Qed.

(** [JSON.parse] always comes to an end with what the text has. *)
Lemma parse_value_fuel (text : JsString) :
  parse_value (2 * length text + 1) text <> OutOfFuel.
Proof. apply (readers_fuel (2 * length text + 1)). lia. Qed.
End JSONFacts.

(* ===================================================================== *)
(** * Validation and the service-level assertions *)
(* ===================================================================== *)

Lemma string_value_falsy (title : option JsString) :
  ToBoolean (string_value title) = false <-> title = None \/ title = Some [].
Proof.
  destruct title as [[| c t] |]; cbn; split; intros H; try discriminate; auto.
  - destruct H as [H | H]; discriminate.
Qed.

Lemma array_value_rejected (productIds : option (list JsString)) :
  ToBoolean (array_value productIds) && (0 <? array_length productIds)%nat = false
  <-> productIds = None \/ productIds = Some [].
Proof.
  destruct productIds as [[| i l] |]; cbn; split; intros H; try discriminate; auto.
  - destruct H as [H | H]; discriminate.
Qed.

Lemma title_entry_iff (data : Candidate) :
  has_prop (js "title") (validateUpsellGroup data) = true
  <-> data_title data = None \/ data_title data = Some [].
Proof.
  destruct data as [[[| c t] |] [[| i l] |]]; cbn [data_title data_productIds].
  all: split.
  all: try (intros _; vm_compute; reflexivity).
  all: try (intros _; now (left + right)).
  all: try (intros H; vm_compute in H; discriminate H).
  all: try (intros [H | H]; discriminate H).
Qed.

(** C2.  Validation reports a [title] entry exactly when the title is empty
    (or absent), a [products] entry exactly when the identifier sequence is
    empty or absent, and no error object exactly when both are non-empty.
    It is a function of its argument alone: it neither reads nor writes the
    world. *)
Theorem validateUpsellGroup_entries (data : Candidate) :
  let errors := validateUpsellGroup data in
  (has_prop (js "title") errors = true
   <-> data_title data = None \/ data_title data = Some [])
  /\ (has_prop (js "products") errors = true
      <-> data_productIds data = None \/ data_productIds data = Some [])
  /\ (errors = JUndefined
      <-> exists title ids, data_title data = Some title /\ title <> []
                            /\ data_productIds data = Some ids /\ ids <> [])
  /\ (errors = JUndefined \/ exists props, errors = JObj props).
Proof.
  cbv zeta.
  destruct data as [[[| c t] |] [[| i l] |]]; cbn [data_title data_productIds].
  all: repeat split.
  all: try (intros _; vm_compute; reflexivity).
  all: try (intros _; now (left + right)).
  all: try (intros H; vm_compute in H; discriminate H).
  all: try (intros [H | H]; discriminate H).
  all: try (intros (title & ids & H1 & H2 & H3 & H4); congruence).
  all: try (right; eexists; vm_compute; reflexivity).
  - intros _. exists (c :: t), (i :: l). repeat split; congruence.
  - left. reflexivity.
Qed.

(** How [createUpsellGroup] and [updateUpsellGroup] run, by the outcome of
    their two assertions. *)
Lemma createUpsellGroup_title_rejected shop title productIds w :
  ToBoolean (string_value title) = false ->
  createUpsellGroup shop title productIds w
  = (Throws (InvariantFailed "Title is required"), w).
Proof. intros H. unfold createUpsellGroup, bind, invariant. rewrite H. reflexivity. Qed.

Lemma createUpsellGroup_products_rejected shop title productIds w :
  ToBoolean (string_value title) = true ->
  ToBoolean (array_value productIds) && (0 <? array_length productIds)%nat = false ->
  createUpsellGroup shop title productIds w
  = (Throws (InvariantFailed "Products are required"), w).
Proof.
  intros H1 H2. unfold createUpsellGroup, bind, invariant. rewrite H1, H2. reflexivity.
Qed.

Lemma createUpsellGroup_accepted shop c t i l w :
  createUpsellGroup shop (Some (c :: t)) (Some (i :: l)) w
  = (Returns (fst (db.create shop (c :: t) (JSON.stringify (i :: l)) (clock w) (store w))),
     {| store := snd (db.create shop (c :: t) (JSON.stringify (i :: l)) (clock w) (store w));
        clock := clock w; requests := requests w |}).
Proof. reflexivity. Qed.

Lemma updateUpsellGroup_title_rejected id shop data w :
  ToBoolean (string_value (data_title data)) = false ->
  updateUpsellGroup id shop data w
  = (Throws (InvariantFailed "Title is required"), w).
Proof. intros H. unfold updateUpsellGroup, bind, invariant. rewrite H. reflexivity. Qed.

Lemma updateUpsellGroup_products_rejected id shop data w :
  ToBoolean (string_value (data_title data)) = true ->
  ToBoolean (array_value (data_productIds data))
  && (0 <? array_length (data_productIds data))%nat = false ->
  updateUpsellGroup id shop data w
  = (Throws (InvariantFailed "Products are required"), w).
Proof.
  intros H1 H2. unfold updateUpsellGroup, bind, invariant. rewrite H1, H2. reflexivity.
Qed.

Lemma updateUpsellGroup_accepted id shop c t i l w :
  let s' := db.updateMany id shop (c :: t) (JSON.stringify (i :: l)) (store w) in
  updateUpsellGroup id shop
    {| data_title := Some (c :: t); data_productIds := Some (i :: l) |} w
  = (Returns (db.findFirst id shop s'),
     {| store := s'; clock := clock w; requests := requests w |}).
Proof. reflexivity. Qed.

(** The two operations end in one of three ways; the branch for absent
    arguments behind the assertions is never taken. *)
Lemma createUpsellGroup_outcomes shop title productIds w :
  createUpsellGroup shop title productIds w
  = (Throws (InvariantFailed "Title is required"), w)
  \/ createUpsellGroup shop title productIds w
     = (Throws (InvariantFailed "Products are required"), w)
  \/ exists group w', createUpsellGroup shop title productIds w = (Returns group, w').
Proof.
  destruct (ToBoolean (string_value title)) eqn:Ht.
  - destruct (ToBoolean (array_value productIds)
              && (0 <? array_length productIds)%nat) eqn:Hp.
    + destruct title as [[| c t] |]; try discriminate Ht.
      destruct productIds as [[| i l] |]; try discriminate Hp.
      right. right. rewrite createUpsellGroup_accepted. eauto.
    + right. left. apply createUpsellGroup_products_rejected; assumption.
  - left. apply createUpsellGroup_title_rejected; assumption.
Qed.

Lemma updateUpsellGroup_outcomes id shop data w :
  updateUpsellGroup id shop data w
  = (Throws (InvariantFailed "Title is required"), w)
  \/ updateUpsellGroup id shop data w
     = (Throws (InvariantFailed "Products are required"), w)
  \/ exists updated w', updateUpsellGroup id shop data w = (Returns updated, w').
Proof.
  destruct (ToBoolean (string_value (data_title data))) eqn:Ht.
  - destruct (ToBoolean (array_value (data_productIds data))
              && (0 <? array_length (data_productIds data))%nat) eqn:Hp.
    + destruct data as [[[| c t] |] [[| i l] |]]; try discriminate Ht;
        try discriminate Hp.
      right. right. rewrite updateUpsellGroup_accepted. eauto.
    + right. left. apply updateUpsellGroup_products_rejected; assumption.
  - left. apply updateUpsellGroup_title_rejected; assumption.
Qed.

(** C6.  When the title is empty (or absent) or the identifier list is empty
    or absent, [createUpsellGroup] and [updateUpsellGroup] throw the failed
    assertion and leave the world — the store included — as it was; they do
    not return an error value.  When both are non-empty no assertion fires
    and both operations return. *)
Theorem assertions_are_fatal (shop : JsString) (id : Z) (title : option JsString)
        (productIds : option (list JsString)) (w : World) :
  let data := {| data_title := title; data_productIds := productIds |} in
  ((title = None \/ title = Some [] \/ productIds = None \/ productIds = Some []) ->
   (exists message,
       createUpsellGroup shop title productIds w = (Throws (InvariantFailed message), w))
   /\ (exists message,
          updateUpsellGroup id shop data w = (Throws (InvariantFailed message), w)))
  /\ ((exists t ids, title = Some t /\ t <> [] /\ productIds = Some ids /\ ids <> []) ->
      (exists group w', createUpsellGroup shop title productIds w = (Returns group, w'))
      /\ (exists updated w', updateUpsellGroup id shop data w = (Returns updated, w'))).
Proof.
  cbv zeta. split.
  - intros Hbad.
    destruct (ToBoolean (string_value title)) eqn:Ht.
    + assert (Hp : ToBoolean (array_value productIds)
                   && (0 <? array_length productIds)%nat = false).
      { apply array_value_rejected.
        destruct Hbad as [Hbad | [Hbad | Hbad]]; [| | exact Hbad].
        - subst title. discriminate Ht.
        - subst title. discriminate Ht. }
      split; eexists.
      * apply createUpsellGroup_products_rejected; assumption.
      * apply updateUpsellGroup_products_rejected; assumption.
    + split; eexists.
      * apply createUpsellGroup_title_rejected; assumption.
      * apply updateUpsellGroup_title_rejected; assumption.
  - intros (t & ids & -> & Ht & -> & Hids).
    destruct t as [| c t]; [congruence |]. destruct ids as [| i l]; [congruence |].
    split; do 2 eexists.
    + apply createUpsellGroup_accepted.
    + apply updateUpsellGroup_accepted.
Qed.

Lemma assertions_are_fatal_witness :
  (exists message,
      createUpsellGroup (js "a.myshopify.com") (Some []) (Some [js "gid://shopify/Product/1"])
                        empty_world
      = (Throws (InvariantFailed message), empty_world))
  /\ (exists group w',
         createUpsellGroup (js "a.myshopify.com") (Some (js "Summer"))
                           (Some [js "gid://shopify/Product/1"]) empty_world
         = (Returns group, w')).
Proof.
  split.
  - apply (assertions_are_fatal (js "a.myshopify.com") 1 (Some [])
             (Some [js "gid://shopify/Product/1"]) empty_world).
    right. left. reflexivity.
  - apply (assertions_are_fatal (js "a.myshopify.com") 1 (Some (js "Summer"))
             (Some [js "gid://shopify/Product/1"]) empty_world).
    exists (js "Summer"), [js "gid://shopify/Product/1"].
    repeat split; discriminate.
Defined.

(** C10.  The title checks are JavaScript falsiness: validation reports a
    title error, and the title assertions of [createUpsellGroup] and
    [updateUpsellGroup] fire, exactly when the title is absent or the empty
    string.  Any non-empty string passes all three, one made of white space
    only, such as [" "], included. *)
Theorem title_checks_are_falsiness (title : option JsString)
        (productIds : option (list JsString)) (shop : JsString) (id : Z) (w : World) :
  let data := {| data_title := title; data_productIds := productIds |} in
  let blank := {| data_title := Some (js " "); data_productIds := productIds |} in
  (has_prop (js "title") (validateUpsellGroup data) = true
   <-> title = None \/ title = Some [])
  /\ (fst (createUpsellGroup shop title productIds w)
      = Throws (InvariantFailed "Title is required")
      <-> title = None \/ title = Some [])
  /\ (fst (updateUpsellGroup id shop data w)
      = Throws (InvariantFailed "Title is required")
      <-> title = None \/ title = Some [])
  /\ has_prop (js "title") (validateUpsellGroup blank) = false
  /\ fst (createUpsellGroup shop (Some (js " ")) productIds w)
     <> Throws (InvariantFailed "Title is required")
  /\ fst (updateUpsellGroup id shop blank w)
     <> Throws (InvariantFailed "Title is required").
Proof.
  cbv zeta.
  assert (Hcreate : forall title,
             fst (createUpsellGroup shop title productIds w)
             = Throws (InvariantFailed "Title is required")
             <-> title = None \/ title = Some []).
  { intros t. rewrite <- string_value_falsy. split.
    - destruct (ToBoolean (string_value t)) eqn:Ht; [| reflexivity].
      destruct (ToBoolean (array_value productIds)
                && (0 <? array_length productIds)%nat) eqn:Hp.
      + destruct t as [[| c t] |]; try discriminate Ht.
        destruct productIds as [[| i l] |]; try discriminate Hp.
        rewrite createUpsellGroup_accepted. discriminate.
      + rewrite createUpsellGroup_products_rejected by assumption. discriminate.
    - intros Ht. rewrite createUpsellGroup_title_rejected by assumption. reflexivity. }
  assert (Hupdate : forall title,
             fst (updateUpsellGroup id shop
                    {| data_title := title; data_productIds := productIds |} w)
             = Throws (InvariantFailed "Title is required")
             <-> title = None \/ title = Some []).
  { intros t. rewrite <- string_value_falsy. split.
    - destruct (ToBoolean (string_value t)) eqn:Ht; [| reflexivity].
      destruct (ToBoolean (array_value productIds)
                && (0 <? array_length productIds)%nat) eqn:Hp.
      + destruct t as [[| c t] |]; try discriminate Ht.
        destruct productIds as [[| i l] |]; try discriminate Hp.
        rewrite updateUpsellGroup_accepted. discriminate.
      + rewrite updateUpsellGroup_products_rejected by assumption. discriminate.
    - intros Ht. rewrite updateUpsellGroup_title_rejected by assumption. reflexivity. }
  split; [| split; [| split; [| split; [| split]]]].
  - apply (title_entry_iff
             {| data_title := title; data_productIds := productIds |}).
  - apply Hcreate.
  - apply Hupdate.
  - apply not_true_is_false. intros H.
    apply (title_entry_iff
             {| data_title := Some (js " "); data_productIds := productIds |}) in H.
    destruct H as [H | H]; discriminate H.
  - intros H. apply Hcreate in H. destruct H as [H | H]; discriminate H.
  - intros H. apply Hupdate in H. destruct H as [H | H]; discriminate H.
Qed.

(* ===================================================================== *)
(** * The store under the service's writes *)
(* ===================================================================== *)

Lemma world_eta (w : World) :
  {| store := {| rows := rows (store w); next_id := next_id (store w) |};
     clock := clock w; requests := requests w |} = w.
Proof. destruct w as [[? ?] ? ?]. reflexivity. Qed.

Lemma count_zero (id : Z) (shop : JsString) (s : Store) :
  db.count id shop s = 0%nat <-> Forall (fun r => ~ db.where_id_shop id shop r) (rows s).
Proof.
  unfold db.count. rewrite length_zero_iff_nil. 
  induction (rows s) as [| r l IH].
  - split; [constructor | reflexivity].
  - rewrite filter_cons. destruct (decide (db.where_id_shop id shop r)) as [Hm | Hm].
    + split; [discriminate |]. intros H. apply Forall_inv in H. contradiction.
    + rewrite IH. split.
      * intros H. constructor; assumption.
      * intros H. exact (Forall_inv_tail H).
Qed.

Lemma updateMany_lookup id shop title productIds (s : Store) (i : nat) :
  rows (db.updateMany id shop title productIds s) !! i
  = (fun r => if decide (db.where_id_shop id shop r)
              then rewritten title productIds r else r) <$> rows s !! i.
Proof. unfold db.updateMany. cbn [rows]. apply list_lookup_fmap. Qed.

Lemma updateMany_none id shop title productIds (s : Store) :
  db.count id shop s = 0%nat ->
  rows (db.updateMany id shop title productIds s) = rows s.
Proof.
  rewrite count_zero. unfold db.updateMany. cbn [rows].
  induction (rows s) as [| r l IH]; intros H; [reflexivity |].
  rewrite fmap_cons, IH by exact (Forall_inv_tail H).
  destruct (decide (db.where_id_shop id shop r)) as [Hm | Hm]; [| reflexivity].
  apply Forall_inv in H. contradiction.
Qed.

Lemma findFirst_Some id shop (s : Store) (r : UpsellGroupFromDB) :
  db.findFirst id shop s = Some r -> r ∈ rows s /\ db.where_id_shop id shop r.
Proof.
  unfold db.findFirst.
  destruct (list_find (db.where_id_shop id shop) (rows s)) as [[i r'] |] eqn:Hf;
    [| discriminate].
  cbn. intros [= ->]. apply list_find_Some in Hf as (Hl & Hm & _).
  split; [| exact Hm]. apply list_elem_of_lookup. eauto.
Qed.

Lemma findFirst_is_Some id shop (s : Store) :
  db.count id shop s <> 0%nat -> is_Some (db.findFirst id shop s).
Proof.
  intros Hc. unfold db.findFirst.
  destruct (list_find (db.where_id_shop id shop) (rows s)) as [[i r] |] eqn:Hf.
  - cbn. eauto.
  - exfalso. apply Hc, count_zero. apply list_find_None in Hf. exact Hf.
Qed.

Lemma updateMany_where id shop title productIds (s : Store) (r : UpsellGroupFromDB) :
  r ∈ rows (db.updateMany id shop title productIds s) ->
  db.where_id_shop id shop r ->
  group_title r = title /\ group_productIds r = productIds.
Proof.
  unfold db.updateMany. cbn [rows]. intros Hin Hm.
  apply list_elem_of_fmap in Hin as (r0 & -> & _).
  destruct (decide (db.where_id_shop id shop r0)) as [H0 | H0].
  - split; reflexivity.
  - contradiction.
Qed.

Lemma updateMany_count id shop title productIds (s : Store) :
  db.count id shop (db.updateMany id shop title productIds s) = db.count id shop s.
Proof.
  unfold db.count, db.updateMany. cbn [rows].
  induction (rows s) as [| r l IH]; [reflexivity |].
  rewrite fmap_cons, !filter_cons.
  destruct (decide (db.where_id_shop id shop r)) as [Hm | Hm].
  - rewrite decide_True by exact Hm. cbn [length]. rewrite IH. reflexivity.
  - rewrite decide_False by exact Hm. exact IH.
Qed.

(** C7.  With a non-empty title and a non-empty identifier list,
    [updateUpsellGroup id shop data] rewrites, in place, exactly the rows
    whose id and shop both match: every other row — one with the same id
    under another shop included — stays as it was, and when no row matches
    the world is left unchanged.  It returns the record found under
    [(id, shop)] after the write, which carries the new title and the
    serialized identifiers. *)
Theorem updateUpsellGroup_frame (id : Z) (shop title : JsString)
        (ids : list JsString) (w : World) :
  title <> [] -> ids <> [] ->
  let data := {| data_title := Some title; data_productIds := Some ids |} in
  let result := fst (updateUpsellGroup id shop data w) in
  let w1 := snd (updateUpsellGroup id shop data w) in
  length (rows (store w1)) = length (rows (store w))
  /\ (forall i r, rows (store w) !! i = Some r -> ~ db.where_id_shop id shop r ->
                  rows (store w1) !! i = Some r)
  /\ (forall i r, rows (store w) !! i = Some r -> db.where_id_shop id shop r ->
                  rows (store w1) !! i = Some (rewritten title (JSON.stringify ids) r))
  /\ (forall r, r ∈ rows (store w) -> group_id r = id -> group_shop r <> shop ->
                r ∈ rows (store w1))
  /\ (db.count id shop (store w) = 0%nat -> w1 = w)
  /\ result = Returns (db.findFirst id shop (store w1))
  /\ (db.count id shop (store w) <> 0%nat ->
      exists r, result = Returns (Some r)
                /\ group_id r = id /\ group_shop r = shop
                /\ group_title r = title
                /\ group_productIds r = JSON.stringify ids)
  /\ next_id (store w1) = next_id (store w)
  /\ clock w1 = clock w
  /\ requests w1 = requests w.
Proof.
  intros Ht Hids. destruct title as [| c t]; [congruence |].
  destruct ids as [| p l]; [congruence |].
  cbv zeta. rewrite updateUpsellGroup_accepted. cbn [fst snd store clock requests].
  assert (Hkeep : forall i r, rows (store w) !! i = Some r ->
                              ~ db.where_id_shop id shop r ->
                              rows (db.updateMany id shop (c :: t)
                                      (JSON.stringify (p :: l)) (store w)) !! i = Some r).
  { intros i r Hl Hm. rewrite updateMany_lookup, Hl. cbn.
    rewrite decide_False by exact Hm. reflexivity. }
  repeat split.
  - unfold db.updateMany. cbn [rows]. apply length_fmap.
  - exact Hkeep.
  - intros i r Hl Hm. rewrite updateMany_lookup, Hl. cbn.
    rewrite decide_True by exact Hm. reflexivity.
  - intros r Hin Hid Hshop. apply list_elem_of_lookup in Hin as [i Hl].
    apply list_elem_of_lookup. exists i. apply Hkeep; [exact Hl |].
    intros [_ Hs]. contradiction.
  - intros Hnone.
    pose proof (updateMany_none id shop (c :: t) (JSON.stringify (p :: l))
                  (store w) Hnone) as Hrows.
    transitivity {| store := {| rows := rows (store w); next_id := next_id (store w) |};
                    clock := clock w; requests := requests w |};
      [| apply world_eta].
    rewrite <- Hrows. reflexivity.
  - intros Hsome.
    destruct (findFirst_is_Some id shop
                (db.updateMany id shop (c :: t) (JSON.stringify (p :: l)) (store w)))
      as [r Hr].
    { rewrite updateMany_count. exact Hsome. }
    exists r. rewrite Hr. apply findFirst_Some in Hr as [Hin [Hid Hshop]].
    destruct (updateMany_where _ _ _ _ _ _ Hin (conj Hid Hshop)) as [Htitle Hpids].
    repeat split; assumption.
Qed.

Lemma updateUpsellGroup_frame_witness :
  snd (updateUpsellGroup 2 (js "a.myshopify.com")
         {| data_title := Some (js "Autumn");
            data_productIds := Some [js "gid://shopify/Product/3"] |} two_shops)
  = two_shops.
Proof.
  apply (updateUpsellGroup_frame 2 (js "a.myshopify.com") (js "Autumn")
           [js "gid://shopify/Product/3"] two_shops).
  - discriminate.
  - discriminate.
  - vm_compute. reflexivity.
Defined.

Lemma deleteMany_twice id shop (s : Store) :
  db.deleteMany id shop (db.deleteMany id shop s) = db.deleteMany id shop s.
Proof.
  unfold db.deleteMany. cbn [rows next_id]. f_equal.
  induction (rows s) as [| r l IH]; [reflexivity |].
  rewrite filter_cons.
  destruct (decide (~ db.where_id_shop id shop r)) as [Hm | Hm].
  - rewrite filter_cons, decide_True by exact Hm. rewrite IH. reflexivity.
  - exact IH.
Qed.

Lemma deleteMany_none id shop (s : Store) :
  db.count id shop s = 0%nat -> rows (db.deleteMany id shop s) = rows s.
Proof.
  rewrite count_zero. unfold db.deleteMany. cbn [rows].
  induction (rows s) as [| r l IH]; intros H; [reflexivity |].
  rewrite filter_cons, decide_True by exact (Forall_inv H).
  rewrite IH by exact (Forall_inv_tail H). reflexivity.
Qed.

(** C8.  [deleteUpsellGroup id shop] removes exactly the rows whose id and
    shop both match, keeps every other row in its place in the order, and
    answers [{ success: true }] whether or not a row matched.  Called again
    on the world it left, it answers the same and changes nothing. *)
Theorem deleteUpsellGroup_idempotent (id : Z) (shop : JsString) (w : World) :
  let w1 := snd (deleteUpsellGroup id shop w) in
  fst (deleteUpsellGroup id shop w) = Returns {| success := true |}
  /\ (forall r, r ∈ rows (store w1)
                <-> r ∈ rows (store w) /\ ~ db.where_id_shop id shop r)
  /\ sublist (rows (store w1)) (rows (store w))
  /\ (db.count id shop (store w) = 0%nat -> w1 = w)
  /\ next_id (store w1) = next_id (store w)
  /\ clock w1 = clock w
  /\ requests w1 = requests w
  /\ deleteUpsellGroup id shop w1 = (Returns {| success := true |}, w1).
Proof.
  cbv zeta. unfold deleteUpsellGroup, bind, with_store, ret.
  cbn [fst snd store clock requests].
  split; [reflexivity |]. split; [| split; [| split; [| repeat split]]].
  - intros r. unfold db.deleteMany. cbn [rows].
    rewrite list_elem_of_filter. tauto.
  - unfold db.deleteMany. cbn [rows]. apply sublist_filter.
  - intros Hnone. pose proof (deleteMany_none id shop (store w) Hnone) as Hrows.
    transitivity {| store := {| rows := rows (store w); next_id := next_id (store w) |};
                    clock := clock w; requests := requests w |};
      [| apply world_eta].
    rewrite <- Hrows. reflexivity.
  - rewrite deleteMany_twice. reflexivity.
Qed.

Lemma deleteUpsellGroup_idempotent_witness :
  snd (deleteUpsellGroup 2 (js "a.myshopify.com") two_shops) = two_shops.
Proof.
  apply (deleteUpsellGroup_idempotent 2 (js "a.myshopify.com") two_shops).
  vm_compute. reflexivity.
Defined.

(* ===================================================================== *)
(** * Enrichment *)
(* ===================================================================== *)

(** Every way an enrichment can go. *)
Lemma supplementUpsellGroup_run group adminClient w :
  supplementUpsellGroup group adminClient w =
  match JSON.parse (group_productIds group) with
  | Throws _ => (Returns (basic group []), w)
  | Returns productIds =>
      let w' := after_call w (getProductNodes_call productIds) in
      match adminClient (requests w) (getProductNodes_call productIds) with
      | GraphqlRejects _ => (Returns (basic group []), w')
      | GraphqlResponds (Throws _) => (Returns (basic group []), w')
      | GraphqlResponds (Returns responseJson) =>
          match format_products responseJson with
          | Returns products => (Returns (basic group products), w')
          | Throws _ => (Returns (basic group []), w')
          end
      end
  end.
Proof.
  unfold supplementUpsellGroup, supplement_body, try_catch, bind, lift, graphql, ret.
  destruct (JSON.parse (group_productIds group)) as [productIds | e]; [| reflexivity].
  fold (getProductNodes_call productIds).
  destruct (adminClient (requests w) (getProductNodes_call productIds))
    as [e | [responseJson | e]]; try reflexivity.
  destruct (format_products responseJson); reflexivity.
Qed.

Lemma omapM_Forall2 {A B} (f : A -> Outcome B) (l : list A) (ys : list B) :
  omapM f l = Returns ys -> Forall2 (fun x y => f x = Returns y) l ys.
Proof.
  revert ys. induction l as [| x l IH]; intros ys; cbn [omapM].
  - intros [= <-]. constructor.
  - destruct (f x) as [y | e] eqn:Hx; cbn [obind]; [| discriminate].
    destruct (omapM f l) as [ys' | e]; cbn [obind]; [| discriminate].
    intros [= <-]. constructor; [exact Hx | apply IH; reflexivity].
Qed.

Lemma format_products_nodes (responseJson : Data) (items : list Data)
      (products : list ProductData) :
  response_nodes responseJson = Returns (JArr items) ->
  format_products responseJson = Returns products ->
  Forall2 (fun node p => format_product node = Returns p)
          (List.filter not_null items) products.
Proof.
  unfold format_products. intros ->. cbn. apply omapM_Forall2.
Qed.

Lemma filter_not_null (items : list Data) :
  Forall (fun node => node <> JNull) (List.filter not_null items)
  /\ (length (List.filter not_null items) <= length items)%nat.
Proof.
  split.
  - apply List.Forall_forall. intros node Hin.
    apply List.filter_In in Hin as [_ Hnn]. intros ->. discriminate Hnn.
  - apply List.filter_length_le.
Qed.

Lemma format_product_throws (node : Data) :
  (exists e, format_product node = Throws e) <-> node = JUndefined \/ node = JNull.
Proof.
  split.
  - intros [e H].
    destruct node as [| | b | n | s | items | props | []];
      [left; reflexivity | right; reflexivity | exfalso ..];
      unfold format_product in H; cbn [get obind] in H.
    1-4: discriminate H.
    destruct (default JUndefined (lookup_prop (js "featuredImage") props))
      as [| | b | n | s | items | props' | []]; cbn in H; discriminate H.
  - intros [-> | ->]; eexists; reflexivity.
Qed.

Lemma omapM_returns {A B} (f : A -> Outcome B) (l : list A) :
  Forall (fun x => exists y, f x = Returns y) l -> exists ys, omapM f l = Returns ys.
Proof.
  induction 1 as [| x l [y Hy] _ [ys IH]]; cbn [omapM].
  - eauto.
  - rewrite Hy, IH. cbn. eauto.
Qed.

Lemma omapM_all_return {A B} (f : A -> Outcome B) (l : list A) (ys : list B) :
  omapM f l = Returns ys -> Forall (fun x => exists y, f x = Returns y) l.
Proof.
  revert ys. induction l as [| x l IH]; intros ys; cbn [omapM]; [constructor |].
  destruct (f x) as [y | e] eqn:Hx; cbn [obind]; [| discriminate].
  destruct (omapM f l) as [ys' | e]; cbn [obind]; [| discriminate].
  intros _. constructor; [eauto | eapply IH; reflexivity].
Qed.

(** How formatting goes, by what the response holds under [data.nodes]. *)
Lemma format_products_array (responseJson : Data) (items : list Data) :
  response_nodes responseJson = Returns (JArr items) ->
  (Forall defined items ->
   exists products, format_products responseJson = Returns products)
  /\ (Exists (fun node => node = JUndefined) items ->
      exists e, format_products responseJson = Throws e).
Proof.
  intros Hnodes. unfold format_products. rewrite Hnodes. cbn. split.
  - intros Hdef. apply omapM_returns, List.Forall_forall. intros node Hin.
    apply List.filter_In in Hin as [Hin Hnn].
    rewrite List.Forall_forall in Hdef. specialize (Hdef node Hin).
    destruct (format_product node) as [p | e] eqn:Hp; [eauto |].
    exfalso. destruct (proj1 (format_product_throws node)) as [-> | ->]; eauto.
    discriminate Hnn.
  - intros Hex. apply List.Exists_exists in Hex as (node & Hin & ->).
    destruct (omapM format_product (List.filter not_null items))
      as [products | e] eqn:Hmap; [| eauto].
    exfalso. apply omapM_all_return in Hmap.
    rewrite List.Forall_forall in Hmap.
    destruct (Hmap JUndefined) as [p Hp]; [| discriminate Hp].
    apply List.filter_In. split; [exact Hin | reflexivity].
Qed.

Lemma format_products_not_array (responseJson nodes : Data) :
  response_nodes responseJson = Returns nodes ->
  (forall items, nodes <> JArr items) ->
  format_products responseJson = Returns []
  \/ exists e, format_products responseJson = Throws e.
Proof.
  intros Hnodes Hna. unfold format_products. rewrite Hnodes. cbn [obind].
  destruct nodes as [| | [|] | n | [| c s] | items | props | []];
    try (left; reflexivity); try (right; eexists; reflexivity).
  - unfold or_else. cbn [ToBoolean].
    destruct (number_is_zero n); [left | right; eexists]; reflexivity.
  - exfalso. exact (Hna items eq_refl).
Qed.

(** C1 (amended).  Enrichment never fails outward: whatever the stored
    record and whatever the client does, it returns the record's [id],
    [title], [shop] and [createdAt] with a product list, and leaves the
    store alone.  The list is empty when decoding [productIds] throws (no
    call is made then), when the catalog call rejects, when reading the
    response throws, when the response has no [data] to read [nodes] from,
    when [data.nodes] is not an array — missing or [null], where [|| []]
    steps in, or anything else, where the [TypeError] is caught — and when
    the array holds an [undefined] entry.  In the one case left, an array
    without [undefined] entries, the products are exactly the formatted
    non-null nodes of the response, in order: never more than the response
    has nodes, hence at most N for N requested identifiers whenever the
    catalog answers with at most N nodes. *)
Theorem supplementUpsellGroup_degrades (group : UpsellGroupFromDB)
        (adminClient : AdminApiContext) (w : World) :
  exists enriched w',
    supplementUpsellGroup group adminClient w = (Returns enriched, w')
    /\ enriched_id enriched = group_id group
    /\ enriched_title enriched = group_title group
    /\ enriched_shop enriched = group_shop group
    /\ enriched_createdAt enriched = group_createdAt group
    /\ store w' = store w
    /\ (forall e, JSON.parse (group_productIds group) = Throws e ->
                  enriched_products enriched = [] /\ w' = w)
    /\ (forall productIds,
           JSON.parse (group_productIds group) = Returns productIds ->
           requests w' = requests w ++ [getProductNodes_call productIds]
           /\ match adminClient (requests w) (getProductNodes_call productIds) with
              | GraphqlRejects _ | GraphqlResponds (Throws _) =>
                  enriched_products enriched = []
              | GraphqlResponds (Returns responseJson) =>
                  (forall e, response_nodes responseJson = Throws e ->
                             enriched_products enriched = [])
                  /\ (forall nodes,
                         response_nodes responseJson = Returns nodes ->
                         (forall items, nodes <> JArr items) ->
                         enriched_products enriched = [])
                  /\ (forall items,
                         response_nodes responseJson = Returns (JArr items) ->
                         (Exists (fun node => node = JUndefined) items ->
                          enriched_products enriched = [])
                         /\ (Forall defined items ->
                             Forall2 (fun node p => format_product node = Returns p)
                                     (List.filter not_null items)
                                     (enriched_products enriched))
                         /\ (length (enriched_products enriched)
                             <= length (List.filter not_null items))%nat
                         /\ (length (enriched_products enriched) <= length items)%nat
                         /\ (forall requested,
                                productIds = JArr requested ->
                                (length items <= length requested)%nat ->
                                (length (enriched_products enriched)
                                 <= length requested)%nat))
              end).
Proof.
  rewrite supplementUpsellGroup_run.
  destruct (JSON.parse (group_productIds group)) as [productIds | e].
  2: { exists (basic group []), w.
       do 6 (split; [reflexivity |]). split.
       - intros _ _. split; reflexivity.
       - intros ? [=]. }
  cbv zeta.
  destruct (adminClient (requests w) (getProductNodes_call productIds))
    as [e | [responseJson | e]] eqn:Hreply.
  - exists (basic group []), (after_call w (getProductNodes_call productIds)).
    do 6 (split; [reflexivity |]). split; [intros ? [=] |].
    intros ? [= <-]. rewrite Hreply. split; reflexivity.
  - destruct (format_products responseJson) as [products | e] eqn:Hfmt.
    + exists (basic group products), (after_call w (getProductNodes_call productIds)).
      do 6 (split; [reflexivity |]). split; [intros ? [=] |].
      intros ? [= <-]. rewrite Hreply. split; [reflexivity |].
      cbn [enriched_products basic]. split; [| split].
      * intros e Hthrows. unfold format_products in Hfmt.
        rewrite Hthrows in Hfmt. discriminate Hfmt.
      * intros nodes Hnodes Hna.
        destruct (format_products_not_array _ _ Hnodes Hna) as [H | [e H]];
          congruence.
      * intros items Hnodes.
        pose proof (format_products_nodes _ _ _ Hnodes Hfmt) as Hall.
        apply Forall2_length in Hall as Hlen.
        pose proof (proj2 (filter_not_null items)) as Hle.
        unfold Data in *.
        split; [| split; [intros _; exact Hall |]].
        { intros Hex.
          destruct (proj2 (format_products_array _ _ Hnodes) Hex) as [e H].
          congruence. }
        split; [lia |]. split; [lia |].
        intros requested _ Hcontract. lia.
    + exists (basic group []), (after_call w (getProductNodes_call productIds)).
      do 6 (split; [reflexivity |]). split; [intros ? [=] |].
      intros ? [= <-]. rewrite Hreply. split; [reflexivity |].
      cbn [enriched_products basic length]. split; [| split].
      * intros; reflexivity.
      * intros; reflexivity.
      * intros items Hnodes. split; [intros _; reflexivity |]. split.
        { intros Hdef.
          destruct (proj1 (format_products_array _ _ Hnodes) Hdef) as [products H].
          congruence. }
        split; [lia |]. split; [lia |].
        intros requested _ Hcontract. lia.
  - exists (basic group []), (after_call w (getProductNodes_call productIds)).
    do 6 (split; [reflexivity |]). split; [intros ? [=] |].
    intros ? [= <-]. rewrite Hreply. split; reflexivity.
Qed.

(** C1, as stated, fails: one identifier is requested, the client answers
    with two nodes, and enrichment returns two products. *)
Lemma supplementUpsellGroup_exceeds_request :
  ~ (forall group adminClient w requested enriched w',
        JSON.parse (group_productIds group) = Returns (JArr requested) ->
        supplementUpsellGroup group adminClient w = (Returns enriched, w') ->
        (length (enriched_products enriched) <= length requested)%nat).
Proof.
  intros Hclaim.
  destruct (supplementUpsellGroup summer_row generous_client two_shops)
    as [[enriched | e] w'] eqn:Hrun.
  - specialize (Hclaim summer_row generous_client two_shops
                       [JStr (js "gid://shopify/Product/1")] enriched w'
                       ltac:(vm_compute; reflexivity) Hrun).
    vm_compute in Hrun. injection Hrun as <- _.
    cbn [enriched_products length] in Hclaim. lia.
  - vm_compute in Hrun. discriminate Hrun.
Qed.

Lemma supplementUpsellGroup_degrades_witness :
  exists enriched w',
    supplementUpsellGroup two_ids_row partial_client empty_world = (Returns enriched, w')
    /\ Forall2 (fun node p => format_product node = Returns p)
               [hat] (enriched_products enriched).
Proof.
  destruct (supplementUpsellGroup_degrades two_ids_row partial_client empty_world)
    as (enriched & w' & Hrun & _ & _ & _ & _ & _ & _ & Hok).
  exists enriched, w'. split; [exact Hrun |].
  destruct (Hok (JArr [JStr (js "gid://shopify/Product/1");
                       JStr (js "gid://shopify/Product/2")]))
    as [_ Hreply].
  { vm_compute. reflexivity. }
  unfold partial_client in Hreply.
  destruct Hreply as (_ & _ & Harray).
  destruct (Harray [hat; JNull]) as (_ & Hexact & _).
  { vm_compute. reflexivity. }
  apply Hexact. repeat constructor.
Defined.

(* ===================================================================== *)
(** * Listing *)
(* ===================================================================== *)

#[local] Instance id_desc_total : Total db.id_desc.
Proof. intros a b. unfold db.id_desc. lia. Qed.

#[local] Instance id_desc_transitive : Transitive db.id_desc.
Proof. intros a b c. unfold db.id_desc. lia. Qed.



Lemma supplementUpsellGroup_returns group adminClient w :
  exists products w',
    supplementUpsellGroup group adminClient w = (Returns (basic group products), w')
    /\ store w' = store w.
Proof.
  rewrite supplementUpsellGroup_run.
  destruct (JSON.parse (group_productIds group)) as [productIds | e];
    [| eexists _, _; split; reflexivity].
  cbv zeta.
  destruct (adminClient (requests w) (getProductNodes_call productIds))
    as [e | [responseJson | e]]; try (eexists _, _; split; reflexivity).
  destruct (format_products responseJson); eexists _, _; split; reflexivity.
Qed.

(** What enriching a list of rows gives: one entry per row, in order, each
    the outcome of [supplementUpsellGroup] on its row; the store is only
    read. *)
Lemma promise_all_supplement (adminClient : AdminApiContext)
      (groups : list UpsellGroupFromDB) :
  forall w, exists enriched w',
    promise_all (fun group => supplementUpsellGroup group adminClient) groups w
    = (Returns enriched, w')
    /\ Forall2 (fun group e =>
                  e = basic group (enriched_products e)
                  /\ exists w0, fst (supplementUpsellGroup group adminClient w0) = Returns e)
               groups enriched
    /\ store w' = store w.
Proof.
  induction groups as [| group groups IH]; intros w.
  - exists [], w. repeat split. constructor.
  - destruct (supplementUpsellGroup_returns group adminClient w)
      as (products & w1 & Hrun & Hstore).
    destruct (IH w1) as (es & w2 & Hrest & Hall & Hstore').
    exists (basic group products :: es), w2.
    cbn [promise_all]. rewrite Hrun, Hrest. split; [reflexivity |].
    split; [| congruence].
    constructor; [| exact Hall]. split.
    + reflexivity.
    + exists w. rewrite Hrun. reflexivity.
Qed.




(* ===================================================================== *)
(** * Creating, then reading back *)
(* ===================================================================== *)

(** The store's writes keep identifiers unique and below the counter. *)
Lemma create_consistent shop title productIds now (s : Store) :
  db.consistent s -> db.consistent (snd (db.create shop title productIds now s)).
Proof.
  intros [Hlt Hnd]. unfold db.create, db.consistent. cbn [snd rows next_id].
  split.
  - apply Forall_app. split.
    + eapply List.Forall_impl; [| exact Hlt]. cbn. intros r Hr. lia.
    + constructor; [cbn; lia | constructor].
  - rewrite fmap_app. apply list.NoDup_app. split; [exact Hnd |]. split.
    + intros x Hx Hin. apply list_elem_of_fmap in Hx as (r & -> & Hr).
      cbn in Hin. apply list_elem_of_singleton in Hin.
      rewrite list.Forall_forall in Hlt. apply Hlt in Hr. lia.
    + cbn. apply NoDup_singleton.
Qed.

Lemma updateMany_consistent id shop title productIds (s : Store) :
  db.consistent s -> db.consistent (db.updateMany id shop title productIds s).
Proof.
  intros [Hlt Hnd]. unfold db.updateMany, db.consistent. cbn [rows next_id].
  assert (Hids : forall l : list UpsellGroupFromDB,
             group_id <$> ((fun r => if decide (db.where_id_shop id shop r)
                                     then rewritten title productIds r else r) <$> l)
             = group_id <$> l).
  { intros l. rewrite <- list_fmap_compose. apply list_fmap_ext.
    intros i r _. cbn. destruct (decide (db.where_id_shop id shop r)); reflexivity. }
  split.
  - apply Forall_fmap. eapply List.Forall_impl; [| exact Hlt].
    intros r Hr. cbn. destruct (decide (db.where_id_shop id shop r)); exact Hr.
  - unfold rewritten in Hids. rewrite Hids. exact Hnd.
Qed.

Lemma deleteMany_consistent id shop (s : Store) :
  db.consistent s -> db.consistent (db.deleteMany id shop s).
Proof.
  intros [Hlt Hnd]. unfold db.deleteMany, db.consistent. cbn [rows next_id].
  split.
  - rewrite list.Forall_forall in *. intros r Hr.
    apply list_elem_of_filter in Hr as [_ Hr]. apply Hlt, Hr.
  - eapply sublist_NoDup; [exact Hnd |]. apply fmap_sublist, sublist_filter.
Qed.

(** A record just created is the one found under its id and shop. *)
Lemma findFirst_created shop title productIds now (s : Store) :
  Forall (fun r => (group_id r < next_id s)%Z) (rows s) ->
  db.findFirst (group_id (fst (db.create shop title productIds now s))) shop
               (snd (db.create shop title productIds now s))
  = Some (fst (db.create shop title productIds now s)).
Proof.
  intros Hlt. unfold db.create, db.findFirst. cbn [fst snd rows group_id].
  rewrite list_find_app_r.
  - cbn [list_find]. rewrite decide_True by (split; reflexivity). reflexivity.
  - apply list_find_None. eapply List.Forall_impl; [| exact Hlt].
    intros r Hr [Hid _]. cbn in Hid, Hr. lia.
Qed.

(** C3.  In a store whose identifiers are below its counter, creating a
    group with a non-empty title and a non-empty list of identifiers and
    then reading it back under the new id and the same shop finds the record
    just created: the enriched result carries the submitted title, and the
    stored JSON text decodes to the submitted list — which is what the read
    sends to the catalog as [ids]. *)
Theorem create_then_get (shop title : JsString) (ids : list JsString)
        (adminClient : AdminApiContext) (w : World) :
  title <> [] -> ids <> [] -> db.consistent (store w) ->
  exists group w1 enriched w2,
    createUpsellGroup shop (Some title) (Some ids) w = (Returns group, w1)
    /\ getUpsellGroup (group_id group) shop adminClient w1 = (Returns (Some enriched), w2)
    /\ db.findFirst (group_id group) shop (store w1) = Some group
    /\ enriched_id enriched = group_id group
    /\ enriched_shop enriched = shop
    /\ enriched_title enriched = title
    /\ group_title group = title
    /\ JSON.parse (group_productIds group) = Returns (JArr (JStr <$> ids))
    /\ requests w2 = requests w1 ++ [getProductNodes_call (JArr (JStr <$> ids))].
Proof.
  intros Ht Hids [Hlt _].
  destruct title as [| c t]; [congruence |]. destruct ids as [| i l]; [congruence |].
  rewrite createUpsellGroup_accepted.
  set (created := db.create shop (c :: t) (JSON.stringify (i :: l)) (clock w) (store w)).
  pose proof (findFirst_created shop (c :: t) (JSON.stringify (i :: l)) (clock w)
                (store w) Hlt) as Hfind.
  fold created in Hfind.
  assert (Hparse : JSON.parse (group_productIds (fst created))
                   = Returns (JArr (JStr <$> i :: l)))
    by apply JSONFacts.parse_stringify.
  set (w1 := {| store := snd created; clock := clock w; requests := requests w |}).
  assert (Hget : exists products,
             getUpsellGroup (group_id (fst created)) shop adminClient w1
             = (Returns (Some (basic (fst created) products)),
                after_call w1 (getProductNodes_call (JArr (JStr <$> i :: l))))).
  { unfold getUpsellGroup, bind, with_store. cbn [store clock requests w1].
    rewrite Hfind. fold w1.
    rewrite supplementUpsellGroup_run, Hparse. cbv zeta.
    destruct (adminClient (requests w1) (getProductNodes_call (JArr (JStr <$> i :: l))))
      as [e | [responseJson | e]]; try (eexists; reflexivity).
    destruct (format_products responseJson); eexists; reflexivity. }
  destruct Hget as [products Hget].
  exists (fst created), w1, (basic (fst created) products),
    (after_call w1 (getProductNodes_call (JArr (JStr <$> i :: l)))).
  split; [reflexivity |]. split; [exact Hget |]. split; [exact Hfind |].
  repeat split. exact Hparse.
Qed.

Lemma create_then_get_witness :
  exists group w1 enriched w2,
    createUpsellGroup (js "a.myshopify.com") (Some (js "Summer"))
      (Some [js "gid://shopify/Product/1"; js "gid://shopify/Product/2"]) two_shops
    = (Returns group, w1)
    /\ getUpsellGroup (group_id group) (js "a.myshopify.com") partial_client w1
       = (Returns (Some enriched), w2)
    /\ enriched_title enriched = js "Summer"
    /\ JSON.parse (group_productIds group)
       = Returns (JArr [JStr (js "gid://shopify/Product/1");
                        JStr (js "gid://shopify/Product/2")]).
Proof.
  destruct (create_then_get (js "a.myshopify.com") (js "Summer")
              [js "gid://shopify/Product/1"; js "gid://shopify/Product/2"]
              partial_client two_shops)
    as (group & w1 & enriched & w2 & Hcreate & Hget & _ & _ & _ & Htitle & _ & Hparse & _).
  - discriminate.
  - discriminate.
  - unfold db.consistent. refine (bool_decide_unpack _ _). vm_compute. exact I.
  - exists group, w1, enriched, w2. repeat split; assumption.
Defined.

(* ===================================================================== *)
(** * Catalog search *)
(* ===================================================================== *)

Lemma searchProducts_run shop query adminClient w :
  searchProducts shop query adminClient w =
  let w' := after_call w (searchProducts_call query) in
  match adminClient (requests w) (searchProducts_call query) with
  | GraphqlRejects e => (Throws e, w')
  | GraphqlResponds (Throws e) => (Throws e, w')
  | GraphqlResponds (Returns responseJson) => (format_found responseJson, w')
  end.
Proof.
  unfold searchProducts, bind, lift, graphql, ret. fold (searchProducts_call query).
  destruct (adminClient (requests w) (searchProducts_call query))
    as [e | [responseJson | e]]; try reflexivity.
  cbv zeta. destruct (format_found responseJson); reflexivity.
Qed.

(** C9.  [searchProducts] issues exactly one catalog call, whose query asks
    for [products(first: 10, ...)], and leaves the store alone.  When the
    call rejects or reading the response throws, that very error is the
    outcome of [searchProducts]: nothing is caught and no empty result
    stands in for it. *)
Theorem searchProducts_propagates (shop query : JsString)
        (adminClient : AdminApiContext) (w : World) :
  let call := searchProducts_call query in
  let result := fst (searchProducts shop query adminClient w) in
  let w' := snd (searchProducts shop query adminClient w) in
  requests w' = requests w ++ [call]
  /\ store w' = store w
  /\ includes (js "products(first: 10,") (gql_query call) = true
  /\ (forall e, adminClient (requests w) call = GraphqlRejects e ->
                result = Throws e)
  /\ (forall e, adminClient (requests w) call = GraphqlResponds (Throws e) ->
                result = Throws e)
  /\ (forall responseJson,
         adminClient (requests w) call = GraphqlResponds (Returns responseJson) ->
         result = format_found responseJson).
Proof.
  cbv zeta. rewrite searchProducts_run. cbv zeta.
  split; [| split; [| split; [| split; [| split]]]].
  - destruct (adminClient (requests w) (searchProducts_call query)) as [e | [r | e]];
      reflexivity.
  - destruct (adminClient (requests w) (searchProducts_call query)) as [e | [r | e]];
      reflexivity.
  - vm_compute. reflexivity.
  - intros e ->. reflexivity.
  - intros e ->. reflexivity.
  - intros responseJson ->. reflexivity.
Qed.

Lemma searchProducts_propagates_witness :
  fst (searchProducts (js "a.myshopify.com") (js "hat") failing_client empty_world)
  = Throws (HostError "network error").
Proof.
  destruct (searchProducts_propagates (js "a.myshopify.com") (js "hat")
              failing_client empty_world)
    as (_ & _ & _ & Hrejects & _).
  apply Hrejects. reflexivity.
Defined.

(* ===================================================================== *)
(** * The public retrieval endpoint *)
(* ===================================================================== *)

Import PublicEndpoint.

(** When the loader does answer 401: the checkout result must carry a
    falsy session under [session.session] and its helper under
    [cors.cors]. *)
Lemma loader_answers_401 {Envelope : Type} (cors : HostFunction Envelope)
      (checkoutResult session_of_result session cors_of_result : HostVal Envelope)
      (findFirst : Outcome Data) :
  get checkoutResult (js "session") = Returns session_of_result ->
  get session_of_result (js "session") = Returns session ->
  get checkoutResult (js "cors") = Returns cors_of_result ->
  get cors_of_result (js "cors") = Returns (JFun cors) ->
  ToBoolean session = false ->
  loader (Returns checkoutResult) findFirst = cors unauthorized.
Proof.
  intros H1 H2 H3 H4 Hfalsy. unfold loader. cbn [obind].
  rewrite H1. cbn [obind]. rewrite H2. cbn [obind].
  rewrite H3. cbn [obind]. rewrite H4. cbn [obind].
  rewrite Hfalsy. reflexivity.
Qed.

(** C5.  The loader does not turn a failed verification into a 401.  When
    the authenticator throws, the loader throws the same error; when it
    returns the documented [{ sessionToken, cors }] — no session — the
    first destructuring throws a TypeError; and when the result has a
    [session] member without a nested one, the [cors] the loader extracted
    is [undefined] and calling it throws. *)
Theorem loader_unauthorized_escapes (Envelope : Type) (cors : HostFunction Envelope)
        (e : Exn) (findFirst : Outcome Data) :
  loader (Envelope := Envelope) (Throws e) findFirst = Throws e
  /\ loader (Returns (JObj [(js "sessionToken", JObj []); (js "cors", JFun cors)]))
            findFirst
     = Throws (TypeError "Cannot read properties of undefined")
  /\ loader (Returns (JObj [(js "session", JObj []); (js "cors", JFun cors)]))
            findFirst
     = Throws (TypeError "cors is not a function").
Proof. repeat split. Qed.

(* ===================================================================== *)
(** * The scenarios of the specification, run *)
(* ===================================================================== *)

(** Quoting escapes the quote and the line feed. *)
Example stringify_escapes :
  JSON.stringify [[97; 34; 10]%N] = [91; 34; 97; 92; 34; 92; 110; 34; 93]%N.
Proof. reflexivity. Qed.

(** A surrogate pair is written as it is, a lone surrogate is escaped, and
    both read back. *)
Example parse_stringify_surrogates :
  JSON.parse (JSON.stringify [[55357; 56832; 56832]%N])
  = Returns (JArr [JStr [55357; 56832; 56832]%N]).
Proof. vm_compute. reflexivity. Qed.

(** Product 2 was deleted upstream: one product comes back, product 1. *)
Example scenario_deleted_upstream :
  exists enriched w',
    getUpsellGroup 7 (js "a.myshopify.com") partial_client one_group
    = (Returns (Some enriched), w')
    /\ product_id <$> enriched_products enriched
       = [JStr (js "gid://shopify/Product/1")].
Proof. eexists _, _. vm_compute. split; reflexivity. Qed.

(** The catalog call throws: the base record still comes back, without
    products. *)
Example scenario_network_error :
  fst (getUpsellGroup 7 (js "a.myshopify.com") failing_client one_group)
  = Returns (Some (basic two_ids_row [])).
Proof. vm_compute. reflexivity. Qed.

(** Another shop's id is not found. *)
Example scenario_other_shop :
  fst (getUpsellGroup 7 (js "b.myshopify.com") partial_client one_group)
  = Returns None.
Proof. vm_compute. reflexivity. Qed.

(** An update under the right shop rewrites the row and returns it. *)
Example scenario_update :
  fst (updateUpsellGroup 1 (js "a.myshopify.com")
         {| data_title := Some (js "Autumn");
            data_productIds := Some [js "gid://shopify/Product/3"] |} two_shops)
  = Returns (Some (rewritten (js "Autumn")
                             (JSON.stringify [js "gid://shopify/Product/3"])
                             summer_row)).
Proof. vm_compute. reflexivity. Qed.

(* ===================================================================== *)
(** * Reading one group *)
(* ===================================================================== *)

Lemma world_same (w : World) :
  {| store := store w; clock := clock w; requests := requests w |} = w.
Proof. destruct w. reflexivity. Qed.

Lemma findFirst_None id shop (s : Store) :
  db.findFirst id shop s = None <-> db.count id shop s = 0%nat.
Proof.
  rewrite count_zero. unfold db.findFirst.
  destruct (list_find (db.where_id_shop id shop) (rows s)) as [[i r] |] eqn:Hf.
  - split; [discriminate |]. intros Hall.
    apply (proj2 (list_find_None _ _)) in Hall. congruence.
  - split; [| reflexivity]. intros _. apply list_find_None in Hf. exact Hf.
Qed.

Lemma getUpsellGroup_run id shop adminClient w :
  getUpsellGroup id shop adminClient w =
  match db.findFirst id shop (store w) with
  | None => (Returns None, w)
  | Some group =>
      (Returns (Some (fst_enriched group adminClient w)),
       snd (supplementUpsellGroup group adminClient w))
  end.
Proof.
  unfold getUpsellGroup, bind, with_store. rewrite world_same.
  destruct (db.findFirst id shop (store w)) as [group |]; [| reflexivity].
  unfold fst_enriched.
  destruct (supplementUpsellGroup_returns group adminClient w)
    as (products & w' & Hrun & _).
  rewrite Hrun. reflexivity.
Qed.

(** X1.  [getUpsellGroup id shop] answers [null], without a catalog call and
    leaving the world as it was, exactly when no stored record has both the
    id and the shop; otherwise it answers what [supplementUpsellGroup]
    returns for the record the store finds, which has that id and that shop,
    and the world is the one that enrichment leaves.  Where ids are unique,
    an id that belongs to another shop is therefore not found. *)
Theorem getUpsellGroup_lookup (id : Z) (shop : JsString)
        (adminClient : AdminApiContext) (w : World) :
  (db.count id shop (store w) = 0%nat ->
   getUpsellGroup id shop adminClient w = (Returns None, w))
  /\ (db.count id shop (store w) <> 0%nat ->
      exists row enriched w',
        getUpsellGroup id shop adminClient w = (Returns (Some enriched), w')
        /\ db.findFirst id shop (store w) = Some row
        /\ row ∈ rows (store w)
        /\ group_id row = id /\ group_shop row = shop
        /\ supplementUpsellGroup row adminClient w = (Returns enriched, w')
        /\ enriched = basic row (enriched_products enriched)
        /\ store w' = store w)
  /\ (forall other, NoDup (group_id <$> rows (store w)) ->
                    other ∈ rows (store w) -> group_id other = id ->
                    group_shop other <> shop ->
                    getUpsellGroup id shop adminClient w = (Returns None, w)).
Proof.
  assert (Hnone : db.count id shop (store w) = 0%nat ->
                  getUpsellGroup id shop adminClient w = (Returns None, w)).
  { intros Hc. rewrite getUpsellGroup_run.
    apply findFirst_None in Hc. rewrite Hc. reflexivity. }
  split; [exact Hnone |]. split.
  - intros Hc. rewrite getUpsellGroup_run.
    destruct (findFirst_is_Some id shop (store w) Hc) as [row Hrow].
    rewrite Hrow. pose proof Hrow as Hfound.
    apply findFirst_Some in Hfound as [Hin [Hid Hshop]].
    destruct (supplementUpsellGroup_returns row adminClient w)
      as (products & w' & Hrun & Hstore).
    unfold fst_enriched. rewrite Hrun. cbn [fst snd].
    exists row, (basic row products), w'. repeat split; assumption.
  - intros other Hnd Hin Hid Hshop. apply Hnone, count_zero.
    apply list.Forall_forall. intros r Hr [Hrid Hrshop].
    assert (r = other); [| congruence].
    apply list_elem_of_lookup in Hr as [i Hi].
    apply list_elem_of_lookup in Hin as [j Hj].
    assert (i = j); [| congruence].
    eapply NoDup_lookup; [exact Hnd | |].
    + rewrite list_lookup_fmap, Hi. reflexivity.
    + rewrite list_lookup_fmap, Hj. cbn. congruence.
Qed.

Lemma getUpsellGroup_lookup_witness :
  getUpsellGroup 2 (js "a.myshopify.com") generous_client two_shops
  = (Returns None, two_shops)
  /\ exists enriched w',
       getUpsellGroup 1 (js "a.myshopify.com") generous_client two_shops
       = (Returns (Some enriched), w')
       /\ supplementUpsellGroup summer_row generous_client two_shops
          = (Returns enriched, w').
Proof.
  split.
  - apply (getUpsellGroup_lookup 2 (js "a.myshopify.com") generous_client two_shops).
    vm_compute. reflexivity.
  - destruct (getUpsellGroup_lookup 1 (js "a.myshopify.com") generous_client two_shops)
      as (_ & Hfound & _).
    destruct Hfound as (row & enriched & w' & Hget & Hfind & _ & _ & _ & Hrun & _).
    + vm_compute. discriminate.
    + exists enriched, w'. split; [exact Hget |].
      assert (Hrow : row = summer_row)
        by (apply (inj Some); rewrite <- Hfind; vm_compute; reflexivity).
      rewrite <- Hrow. exact Hrun.
Defined.

(** X2.  After [deleteUpsellGroup id shop], [getUpsellGroup id shop] answers
    [null] for every client, and asks the catalog nothing. *)
Theorem delete_then_get (id : Z) (shop : JsString) (adminClient : AdminApiContext)
        (w : World) :
  let w1 := snd (deleteUpsellGroup id shop w) in
  getUpsellGroup id shop adminClient w1 = (Returns None, w1).
Proof.
  cbv zeta. rewrite getUpsellGroup_run.
  replace (db.findFirst id shop (store (snd (deleteUpsellGroup id shop w))))
    with (@None UpsellGroupFromDB); [reflexivity |].
  symmetry. apply findFirst_None, count_zero.
  unfold deleteUpsellGroup, bind, with_store, ret, db.deleteMany.
  cbn [snd store rows]. apply list.Forall_forall. intros r Hr.
  apply list_elem_of_filter in Hr as [Hr _]. exact Hr.
Qed.

(** X3.  When a record matches [(id, shop)], updating it with a non-empty
    title and a non-empty list of identifiers and then reading it back
    returns the new title, and the read asks the catalog for exactly the
    submitted identifiers. *)
Theorem update_then_get (id : Z) (shop title : JsString) (ids : list JsString)
        (adminClient : AdminApiContext) (w : World) :
  title <> [] -> ids <> [] -> db.count id shop (store w) <> 0%nat ->
  let w1 := snd (updateUpsellGroup id shop
                   {| data_title := Some title; data_productIds := Some ids |} w) in
  exists enriched w2,
    getUpsellGroup id shop adminClient w1 = (Returns (Some enriched), w2)
    /\ enriched_id enriched = id
    /\ enriched_shop enriched = shop
    /\ enriched_title enriched = title
    /\ requests w2 = requests w1 ++ [getProductNodes_call (JArr (JStr <$> ids))].
Proof.
  intros Ht Hids Hc. destruct title as [| c t]; [congruence |].
  destruct ids as [| i l]; [congruence |].
  cbv zeta. rewrite updateUpsellGroup_accepted. cbn [snd].
  set (s1 := db.updateMany id shop (c :: t) (JSON.stringify (i :: l)) (store w)).
  set (w1 := {| store := s1; clock := clock w; requests := requests w |}).
  destruct (findFirst_is_Some id shop s1) as [row Hrow].
  { unfold s1. rewrite updateMany_count. exact Hc. }
  pose proof Hrow as Hfound. apply findFirst_Some in Hfound as [Hin [Hid Hshop]].
  destruct (updateMany_where _ _ _ _ _ _ Hin (conj Hid Hshop)) as [Htitle Hpids].
  rewrite getUpsellGroup_run. cbn [store w1]. rewrite Hrow.
  unfold fst_enriched. rewrite supplementUpsellGroup_run, Hpids.
  rewrite JSONFacts.parse_stringify. cbv zeta.
  destruct (adminClient (requests w1) (getProductNodes_call (JArr (JStr <$> i :: l))))
    as [e | [responseJson | e]];
    try (eexists _, _; split; [reflexivity |]; repeat split; assumption).
  destruct (format_products responseJson);
    eexists _, _; (split; [reflexivity |]); repeat split; assumption.
Qed.

Lemma update_then_get_witness :
  exists enriched w2,
    getUpsellGroup 1 (js "a.myshopify.com") partial_client
      (snd (updateUpsellGroup 1 (js "a.myshopify.com")
              {| data_title := Some (js "Autumn");
                 data_productIds := Some [js "gid://shopify/Product/3"] |} two_shops))
    = (Returns (Some enriched), w2)
    /\ enriched_title enriched = js "Autumn".
Proof.
  destruct (update_then_get 1 (js "a.myshopify.com") (js "Autumn")
              [js "gid://shopify/Product/3"] partial_client two_shops)
    as (enriched & w2 & Hget & _ & _ & Htitle & _).
  - discriminate.
  - discriminate.
  - vm_compute. discriminate.
  - exists enriched, w2. split; assumption.
Defined.

(** X4.  The form-level check and the service-level assertions accept the
    same candidates: [validateUpsellGroup] returns no error object exactly
    when [createUpsellGroup] returns, and exactly when [updateUpsellGroup]
    returns. *)
Theorem validation_matches_assertions (shop : JsString) (id : Z) (data : Candidate)
        (w : World) :
  (validateUpsellGroup data = JUndefined
   <-> exists group w',
        createUpsellGroup shop (data_title data) (data_productIds data) w
        = (Returns group, w'))
  /\ (validateUpsellGroup data = JUndefined
      <-> exists updated w', updateUpsellGroup id shop data w = (Returns updated, w')).
Proof.
  destruct data as [[[| c t] |] [[| i l] |]]; cbn [data_title data_productIds].
  all: split; split.
  all: try (intros _; rewrite createUpsellGroup_accepted; eauto; fail).
  all: try (intros _; rewrite updateUpsellGroup_accepted; eauto; fail).
  all: try (intros (g & w' & H);
            first [ rewrite createUpsellGroup_title_rejected in H by reflexivity
                  | rewrite createUpsellGroup_products_rejected in H by reflexivity
                  | rewrite updateUpsellGroup_title_rejected in H by reflexivity
                  | rewrite updateUpsellGroup_products_rejected in H by reflexivity ];
            discriminate H).
  all: try (intros H; discriminate H).
  all: intros _; reflexivity.
Qed.

(* ===================================================================== *)
(** * Catalog traffic *)
(* ===================================================================== *)

Lemma supplementUpsellGroup_requests group adminClient w :
  requests (snd (supplementUpsellGroup group adminClient w))
  = requests w ++ from_option (fun call => [call]) [] (catalog_call_of group)
  /\ store (snd (supplementUpsellGroup group adminClient w)) = store w
  /\ clock (snd (supplementUpsellGroup group adminClient w)) = clock w.
Proof.
  rewrite supplementUpsellGroup_run. unfold catalog_call_of.
  destruct (JSON.parse (group_productIds group)) as [productIds | e].
  - cbv zeta.
    destruct (adminClient (requests w) (getProductNodes_call productIds))
      as [e | [responseJson | e]]; try (repeat split; reflexivity).
    destruct (format_products responseJson); repeat split; reflexivity.
  - cbn. rewrite app_nil_r. repeat split; reflexivity.
Qed.

Lemma promise_all_requests (adminClient : AdminApiContext)
      (groups : list UpsellGroupFromDB) :
  forall w,
    requests (snd (promise_all (fun group => supplementUpsellGroup group adminClient)
                               groups w))
    = requests w ++ omap catalog_call_of groups.
Proof.
  induction groups as [| group groups IH]; intros w.
  - cbn. rewrite app_nil_r. reflexivity.
  - cbn [promise_all].
    destruct (supplementUpsellGroup_requests group adminClient w) as (Hreq & _ & _).
    destruct (supplementUpsellGroup group adminClient w) as [y w1].
    cbn [snd] in Hreq. specialize (IH w1).
    destruct (promise_all (fun g => supplementUpsellGroup g adminClient) groups w1)
      as [ys w2].
    cbn [snd] in *. rewrite IH, Hreq, <- app_assoc. f_equal.
    cbn [omap list_omap]. destruct (catalog_call_of group); reflexivity.
Qed.

Lemma omap_length_le {A B} (f : A -> option B) (l : list A) :
  (length (omap f l) <= length l)%nat.
Proof.
  induction l as [| x l IH]; [reflexivity |].
  cbn [omap list_omap length]. destruct (f x); cbn [length]; fold (omap f l); lia.
Qed.

(** X5.  Listing a shop's groups asks the catalog once for each of the
    shop's records whose [productIds] text decodes, in listing order, with
    the decoded identifiers as [ids], and not at all for the others: one
    batch call per enrichment, never one per product. *)
Theorem getUpsellGroups_requests (shop : JsString) (adminClient : AdminApiContext)
        (w : World) :
  let w' := snd (getUpsellGroups shop adminClient w) in
  requests w' = requests w ++ omap catalog_call_of (db.findMany shop (store w))
  /\ (length (requests w')
      <= length (requests w) + length (filter (db.where_shop shop) (rows (store w))))%nat.
Proof.
  cbv zeta.
  assert (Hreq : requests (snd (getUpsellGroups shop adminClient w))
                 = requests w ++ omap catalog_call_of (db.findMany shop (store w))).
  { unfold getUpsellGroups, bind, with_store. rewrite world_same.
    destruct (db.findMany shop (store w)) as [| g gs] eqn:Hfind.
    - cbn. rewrite app_nil_r. reflexivity.
    - cbn [length Nat.eqb]. apply promise_all_requests. }
  split; [exact Hreq |].
  rewrite Hreq, length_app.
  assert (Hperm : db.findMany shop (store w)
                  ≡ₚ filter (db.where_shop shop) (rows (store w)))
    by apply merge_sort_Permutation.
  rewrite <- Hperm.
  pose proof (omap_length_le catalog_call_of (db.findMany shop (store w))) as Hle.
  lia.
Qed.

(* ===================================================================== *)
(** * Formatting catalog nodes *)
(* ===================================================================== *)

(** X6.  A node is formatted without error unless it is [undefined] or
    [null].  So when the node list of the response is an array with no
    [undefined] entry — as every array read from JSON is — enrichment
    returns exactly one product per non-null node, in order. *)
Theorem format_products_exact (responseJson : Data) (items : list Data) :
  response_nodes responseJson = Returns (JArr items) ->
  Forall defined items ->
  exists products,
    format_products responseJson = Returns products
    /\ Forall2 (fun node p => format_product node = Returns p)
               (List.filter not_null items) products
    /\ length products = length (List.filter not_null items).
Proof.
  intros Hnodes Hdef.
  assert (Hok : exists products,
             omapM format_product (List.filter not_null items) = Returns products).
  { apply omapM_returns. apply List.Forall_forall. intros node Hin.
    apply List.filter_In in Hin as [Hin Hnn].
    rewrite List.Forall_forall in Hdef. specialize (Hdef node Hin).
    destruct (format_product node) as [p | e] eqn:Hp; [eauto |].
    exfalso. destruct (proj1 (format_product_throws node)) as [-> | ->]; eauto.
    discriminate Hnn. }
  destruct Hok as [products Hok]. exists products.
  assert (Hfmt : format_products responseJson = Returns products).
  { unfold format_products. rewrite Hnodes. cbn. exact Hok. }
  split; [exact Hfmt |].
  pose proof (format_products_nodes _ _ _ Hnodes Hfmt) as Hall.
  split; [exact Hall |]. symmetry. eapply Forall2_length, Hall.
Qed.

Lemma format_products_exact_witness :
  exists products,
    format_products (nodes_response [hat; JNull; scarf]) = Returns products
    /\ length products = 2%nat.
Proof.
  destruct (format_products_exact (nodes_response [hat; JNull; scarf])
              [hat; JNull; scarf])
    as (products & Hfmt & _ & Hlen).
  - reflexivity.
  - repeat constructor.
  - exists products. split; [exact Hfmt | exact Hlen].
Defined.

(** X7.  [searchProducts] does not filter: with a node list that is an
    array, it returns one product per node, in order, and a single [null]
    (or [undefined]) node makes the whole search throw.  A node list that is
    [null] or missing gives the empty result. *)
Theorem searchProducts_nodes (shop query : JsString) (adminClient : AdminApiContext)
        (w : World) (responseJson found nodes : Data) :
  adminClient (requests w) (searchProducts_call query)
  = GraphqlResponds (Returns responseJson) ->
  obind (get responseJson (js "data")) (fun data => get data (js "products"))
  = Returns found ->
  get found (js "nodes") = Returns nodes ->
  let result := fst (searchProducts shop query adminClient w) in
  (nodes = JNull \/ nodes = JUndefined -> result = Returns [])
  /\ (forall items,
         nodes = JArr items ->
         (Forall (fun node => node <> JNull /\ node <> JUndefined) items ->
          exists products,
            result = Returns products
            /\ Forall2 (fun node p => format_product node = Returns p) items products)
         /\ (Exists (fun node => node = JNull \/ node = JUndefined) items ->
             exists e, result = Throws e)).
Proof.
  intros Hreply Hfound Hnodes. cbv zeta.
  rewrite searchProducts_run, Hreply. cbn [fst].
  assert (Hfmt : format_found responseJson
                 = array_map format_product (or_else nodes (JArr []))).
  { unfold format_found.
    destruct (get responseJson (js "data")) as [data | e]; cbn [obind] in *;
      [| discriminate].
    rewrite Hfound. cbn [obind]. rewrite Hnodes. reflexivity. }
  rewrite Hfmt. split.
  - intros [-> | ->]; reflexivity.
  - intros items ->. cbn [or_else ToBoolean array_map]. split.
    + intros Hall.
      destruct (omapM_returns format_product items) as [products Hok].
      { eapply List.Forall_impl; [| exact Hall]. intros node [Hn Hu].
        destruct (format_product node) as [p | e] eqn:Hp; [eauto |].
        exfalso. destruct (proj1 (format_product_throws node)) as [-> | ->]; eauto. }
      exists products. split; [exact Hok |]. apply omapM_Forall2, Hok.
    + intros Hex. destruct (omapM format_product items) as [products | e] eqn:Hok;
        [| eauto].
      exfalso. apply omapM_all_return in Hok.
      apply List.Exists_exists in Hex as (node & Hin & Hbad).
      rewrite List.Forall_forall in Hok. destruct (Hok node Hin) as [p Hp].
      destruct (proj2 (format_product_throws node)) as [e He].
      { destruct Hbad; [right | left]; assumption. }
      congruence.
Qed.

Lemma searchProducts_nodes_witness :
  exists e,
    fst (searchProducts (js "a.myshopify.com") (js "hat") holey_search_client empty_world)
    = Throws e.
Proof.
  destruct (searchProducts_nodes (js "a.myshopify.com") (js "hat") holey_search_client
              empty_world (products_response (JArr [hat; JNull]))
              (JObj [(js "nodes", JArr [hat; JNull])]) (JArr [hat; JNull]))
    as [_ Hitems].
  - reflexivity.
  - reflexivity.
  - reflexivity.
  - apply (Hitems [hat; JNull] eq_refl).
    right. left. left. reflexivity.
Defined.

(* ===================================================================== *)
(** * Shops do not see each other's writes *)
(* ===================================================================== *)

Lemma supplementUpsellGroup_by_requests group adminClient w1 w2 :
  requests w1 = requests w2 ->
  fst (supplementUpsellGroup group adminClient w1)
  = fst (supplementUpsellGroup group adminClient w2)
  /\ requests (snd (supplementUpsellGroup group adminClient w1))
     = requests (snd (supplementUpsellGroup group adminClient w2)).
Proof.
  intros Hreq. rewrite !supplementUpsellGroup_run.
  destruct (JSON.parse (group_productIds group)) as [productIds | e];
    [| split; [reflexivity | exact Hreq]].
  cbv zeta. unfold after_call. rewrite Hreq.
  destruct (adminClient (requests w2) (getProductNodes_call productIds))
    as [e | [responseJson | e]]; cbn [fst snd requests];
    try (split; reflexivity).
  destruct (format_products responseJson); cbn [fst snd requests]; split; reflexivity.
Qed.

Lemma promise_all_by_requests adminClient (groups : list UpsellGroupFromDB) :
  forall w1 w2,
    requests w1 = requests w2 ->
    fst (promise_all (fun g => supplementUpsellGroup g adminClient) groups w1)
    = fst (promise_all (fun g => supplementUpsellGroup g adminClient) groups w2).
Proof.
  induction groups as [| group groups IH]; intros w1 w2 Hreq; [reflexivity |].
  cbn [promise_all].
  destruct (supplementUpsellGroup_by_requests group adminClient w1 w2 Hreq)
    as [Hfst Hnext].
  destruct (supplementUpsellGroup group adminClient w1) as [y1 w1'].
  destruct (supplementUpsellGroup group adminClient w2) as [y2 w2'].
  cbn [fst snd] in *. specialize (IH w1' w2' Hnext).
  destruct (promise_all (fun g => supplementUpsellGroup g adminClient) groups w1').
  destruct (promise_all (fun g => supplementUpsellGroup g adminClient) groups w2').
  cbn [fst] in *. subst. reflexivity.
Qed.

(** A listing is decided by the shop's rows and the calls made so far. *)
Lemma getUpsellGroups_by_rows shop adminClient w1 w2 :
  db.findMany shop (store w1) = db.findMany shop (store w2) ->
  requests w1 = requests w2 ->
  fst (getUpsellGroups shop adminClient w1) = fst (getUpsellGroups shop adminClient w2).
Proof.
  intros Hrows Hreq. unfold getUpsellGroups, bind, with_store.
  rewrite !world_same, Hrows.
  destruct (length (db.findMany shop (store w2)) =? 0)%nat; [reflexivity |].
  apply promise_all_by_requests, Hreq.
Qed.

Lemma filter_shop_create shop shop' title productIds now (s : Store) :
  shop' <> shop ->
  filter (db.where_shop shop') (rows (snd (db.create shop title productIds now s)))
  = filter (db.where_shop shop') (rows s).
Proof.
  intros Hne. unfold db.create. cbn [snd rows].
  rewrite list.filter_app, filter_cons, decide_False, filter_nil, app_nil_r;
    [reflexivity |].
  unfold db.where_shop. cbn. congruence.
Qed.

Lemma filter_shop_updateMany id shop shop' title productIds (s : Store) :
  shop' <> shop ->
  filter (db.where_shop shop') (rows (db.updateMany id shop title productIds s))
  = filter (db.where_shop shop') (rows s).
Proof.
  intros Hne. unfold db.updateMany. cbn [rows].
  induction (rows s) as [| r l IH]; [reflexivity |].
  rewrite fmap_cons, !filter_cons, IH.
  destruct (decide (db.where_id_shop id shop r)) as [[_ Hshop] | Hm]; [| reflexivity].
  rewrite !decide_False; [reflexivity | |]; unfold db.where_shop; cbn; congruence.
Qed.

Lemma filter_shop_deleteMany id shop shop' (s : Store) :
  shop' <> shop ->
  filter (db.where_shop shop') (rows (db.deleteMany id shop s))
  = filter (db.where_shop shop') (rows s).
Proof.
  intros Hne. unfold db.deleteMany. cbn [rows].
  induction (rows s) as [| r l IH]; [reflexivity |].
  rewrite !filter_cons.
  destruct (decide (~ db.where_id_shop id shop r)) as [Hm | Hm].
  - rewrite filter_cons, IH. reflexivity.
  - rewrite IH. rewrite decide_False; [reflexivity |].
    unfold db.where_shop. intros Hs. apply Hm. intros [_ Hshop]. congruence.
Qed.

(** X8.  Whatever [createUpsellGroup], [updateUpsellGroup] and
    [deleteUpsellGroup] do under one shop, every other shop lists exactly
    what it listed before. *)
Theorem writes_stay_in_shop (shop shop' : JsString) (id : Z) (title : option JsString)
        (productIds : option (list JsString)) (adminClient : AdminApiContext)
        (w : World) :
  shop' <> shop ->
  let listing := fst (getUpsellGroups shop' adminClient w) in
  fst (getUpsellGroups shop' adminClient
         (snd (createUpsellGroup shop title productIds w))) = listing
  /\ fst (getUpsellGroups shop' adminClient
            (snd (updateUpsellGroup id shop
                    {| data_title := title; data_productIds := productIds |} w)))
     = listing
  /\ fst (getUpsellGroups shop' adminClient (snd (deleteUpsellGroup id shop w)))
     = listing.
Proof.
  intros Hne. cbv zeta. split; [| split].
  - destruct (createUpsellGroup_outcomes shop title productIds w)
      as [H | [H | (g & w' & H)]]; try (rewrite H; reflexivity).
    destruct title as [[| c t] |];
      try (rewrite createUpsellGroup_title_rejected in H by reflexivity;
           discriminate H).
    destruct productIds as [[| i l] |];
      try (rewrite createUpsellGroup_products_rejected in H by reflexivity;
           discriminate H).
    rewrite createUpsellGroup_accepted. cbn [snd].
    apply getUpsellGroups_by_rows; [| reflexivity].
    unfold db.findMany. cbn [store]. rewrite filter_shop_create by exact Hne.
    reflexivity.
  - set (data := {| data_title := title; data_productIds := productIds |}).
    destruct (updateUpsellGroup_outcomes id shop data w)
      as [H | [H | (g & w' & H)]]; try (rewrite H; reflexivity).
    subst data.
    destruct title as [[| c t] |];
      try (rewrite updateUpsellGroup_title_rejected in H by reflexivity;
           discriminate H).
    destruct productIds as [[| i l] |];
      try (rewrite updateUpsellGroup_products_rejected in H by reflexivity;
           discriminate H).
    rewrite updateUpsellGroup_accepted. cbn [snd].
    apply getUpsellGroups_by_rows; [| reflexivity].
    unfold db.findMany. cbn [store]. rewrite filter_shop_updateMany by exact Hne.
    reflexivity.
  - apply getUpsellGroups_by_rows; [| reflexivity].
    unfold deleteUpsellGroup, bind, with_store, ret, db.findMany. cbn [snd store].
    rewrite filter_shop_deleteMany by exact Hne. reflexivity.
Qed.

Lemma writes_stay_in_shop_witness :
  fst (getUpsellGroups (js "b.myshopify.com") partial_client
         (snd (deleteUpsellGroup 1 (js "a.myshopify.com") two_shops)))
  = fst (getUpsellGroups (js "b.myshopify.com") partial_client two_shops).
Proof.
  apply (writes_stay_in_shop (js "a.myshopify.com") (js "b.myshopify.com") 1
           None None partial_client two_shops).
  discriminate.
Defined.

(* ===================================================================== *)
(** * What the store keeps *)
(* ===================================================================== *)

(** X10.  Identifiers stay unique and below the autoincrement counter under
    every operation of the service, whatever its arguments and whatever the
    catalog client does; the empty store starts that way. *)
Theorem service_keeps_store_consistent (shop query : JsString) (id : Z)
        (title : option JsString) (productIds : option (list JsString))
        (adminClient : AdminApiContext) (w : World) :
  db.consistent (store w) ->
  db.consistent (store (snd (createUpsellGroup shop title productIds w)))
  /\ db.consistent
       (store (snd (updateUpsellGroup id shop
                      {| data_title := title; data_productIds := productIds |} w)))
  /\ db.consistent (store (snd (deleteUpsellGroup id shop w)))
  /\ store (snd (getUpsellGroup id shop adminClient w)) = store w
  /\ store (snd (getUpsellGroups shop adminClient w)) = store w
  /\ store (snd (searchProducts shop query adminClient w)) = store w.
Proof.
  intros Hok. split; [| split; [| split; [| split; [| split]]]].
  - destruct (createUpsellGroup_outcomes shop title productIds w)
      as [H | [H | (g & w' & H)]]; try (rewrite H; exact Hok).
    destruct title as [[| c t] |];
      try (rewrite createUpsellGroup_title_rejected in H by reflexivity;
           discriminate H).
    destruct productIds as [[| i l] |];
      try (rewrite createUpsellGroup_products_rejected in H by reflexivity;
           discriminate H).
    rewrite createUpsellGroup_accepted. cbn [snd store].
    apply create_consistent, Hok.
  - set (data := {| data_title := title; data_productIds := productIds |}).
    destruct (updateUpsellGroup_outcomes id shop data w)
      as [H | [H | (g & w' & H)]]; try (rewrite H; exact Hok).
    subst data.
    destruct title as [[| c t] |];
      try (rewrite updateUpsellGroup_title_rejected in H by reflexivity;
           discriminate H).
    destruct productIds as [[| i l] |];
      try (rewrite updateUpsellGroup_products_rejected in H by reflexivity;
           discriminate H).
    rewrite updateUpsellGroup_accepted. cbn [snd store].
    apply updateMany_consistent, Hok.
  - unfold deleteUpsellGroup, bind, with_store, ret. cbn [snd store].
    apply deleteMany_consistent, Hok.
  - rewrite getUpsellGroup_run.
    destruct (db.findFirst id shop (store w)) as [group |]; [| reflexivity].
    cbn [snd]. apply supplementUpsellGroup_requests.
  - unfold getUpsellGroups, bind, with_store. rewrite world_same.
    destruct (length (db.findMany shop (store w)) =? 0)%nat; [reflexivity |].
    destruct (promise_all_supplement adminClient (db.findMany shop (store w)) w)
      as (enriched & w' & Hrun & _ & Hstore).
    rewrite Hrun. exact Hstore.
  - rewrite searchProducts_run. cbv zeta.
    destruct (adminClient (requests w) (searchProducts_call query))
      as [e | [r | e]]; reflexivity.
Qed.

Lemma service_keeps_store_consistent_witness :
  db.consistent
    (store (snd (createUpsellGroup (js "a.myshopify.com") (Some (js "Spring"))
                   (Some [js "gid://shopify/Product/4"]) empty_world))).
Proof.
  apply (service_keeps_store_consistent (js "a.myshopify.com") (js "hat") 1
           (Some (js "Spring")) (Some [js "gid://shopify/Product/4"])
           partial_client empty_world).
  unfold db.consistent. refine (bool_decide_unpack _ _). vm_compute. exact I.
Defined.

(** The newest record of a shop heads its listing. *)
Lemma findMany_created_first shop title productIds now (s : Store) :
  db.consistent s ->
  exists rest,
    db.findMany shop (snd (db.create shop title productIds now s))
    = fst (db.create shop title productIds now s) :: rest.
Proof.
  intros [Hlt _].
  set (row := fst (db.create shop title productIds now s)).
  set (s' := snd (db.create shop title productIds now s)).
  assert (Hin : row ∈ db.findMany shop s').
  { unfold db.findMany. rewrite merge_sort_Permutation.
    apply list_elem_of_filter. split; [reflexivity |].
    unfold s', db.create. cbn [snd rows]. apply elem_of_app. right.
    apply list_elem_of_singleton. reflexivity. }
  assert (Hsorted : StronglySorted db.id_desc (db.findMany shop s'))
    by (unfold db.findMany; apply (StronglySorted_merge_sort _)).
  assert (Hold : forall r, r ∈ db.findMany shop s' -> r = row \/ (group_id r < group_id row)%Z).
  { intros r Hr. unfold db.findMany in Hr. rewrite merge_sort_Permutation in Hr.
    apply list_elem_of_filter in Hr as [_ Hr].
    unfold s', db.create in Hr. cbn [snd rows] in Hr.
    apply elem_of_app in Hr as [Hr | Hr].
    - right. rewrite list.Forall_forall in Hlt. apply Hlt in Hr. exact Hr.
    - left. apply list_elem_of_singleton in Hr. exact Hr. }
  destruct (db.findMany shop s') as [| h t]; [inversion Hin |].
  exists t. f_equal.
  destruct (Hold h (list_elem_of_here _ _)) as [Hh | Hh]; [exact Hh |].
  apply elem_of_cons in Hin as [Hin | Hin]; [congruence |].
  apply StronglySorted_inv in Hsorted as [_ Hall].
  rewrite list.Forall_forall in Hall. specialize (Hall row Hin).
  unfold db.id_desc in Hall. lia.
Qed.

(** X9.  In a store with unique identifiers below its counter, a group just
    created comes first in its shop's listing, with the submitted title. *)
Theorem create_then_list_first (shop title : JsString) (ids : list JsString)
        (adminClient : AdminApiContext) (w : World) :
  title <> [] -> ids <> [] -> db.consistent (store w) ->
  exists group w1 first rest w2,
    createUpsellGroup shop (Some title) (Some ids) w = (Returns group, w1)
    /\ getUpsellGroups shop adminClient w1 = (Returns (first :: rest), w2)
    /\ enriched_id first = group_id group
    /\ enriched_title first = title
    /\ enriched_shop first = shop.
Proof.
  intros Ht Hids Hok.
  destruct title as [| c t]; [congruence |]. destruct ids as [| i l]; [congruence |].
  rewrite createUpsellGroup_accepted.
  set (created := db.create shop (c :: t) (JSON.stringify (i :: l)) (clock w) (store w)).
  set (w1 := {| store := snd created; clock := clock w; requests := requests w |}).
  destruct (findMany_created_first shop (c :: t) (JSON.stringify (i :: l)) (clock w)
              (store w) Hok) as [others Hfind].
  fold created in Hfind.
  destruct (promise_all_supplement adminClient (fst created :: others) w1)
    as (enriched & w2 & Hrun & Hall & _).
  inversion Hall as [| g e gs es [He _] Hrest]; subst.
  exists (fst created), w1, e, es, w2.
  split; [reflexivity |]. split.
  - unfold getUpsellGroups, bind, with_store. rewrite world_same.
    cbn [store w1]. rewrite Hfind. cbn [length Nat.eqb]. exact Hrun.
  - rewrite He. repeat split.
Qed.

Lemma create_then_list_first_witness :
  exists group w1 first rest w2,
    createUpsellGroup (js "a.myshopify.com") (Some (js "Spring"))
                      (Some [js "gid://shopify/Product/4"]) two_shops
    = (Returns group, w1)
    /\ getUpsellGroups (js "a.myshopify.com") partial_client w1
       = (Returns (first :: rest), w2)
    /\ enriched_title first = js "Spring".
Proof.
  destruct (create_then_list_first (js "a.myshopify.com") (js "Spring")
              [js "gid://shopify/Product/4"] partial_client two_shops)
    as (group & w1 & first & rest & w2 & Hcreate & Hlist & _ & Htitle & _).
  - discriminate.
  - discriminate.
  - unfold db.consistent. refine (bool_decide_unpack _ _). vm_compute. exact I.
  - exists group, w1, first, rest, w2. repeat split; assumption.
Defined.

(* ===================================================================== *)
(** * The public endpoint, past the session check *)
(* ===================================================================== *)

(** X11.  Whenever the public loader returns, what it returns was produced
    by the [cors] helper it took from the checkout result, applied to the
    401 body, to the 500 body or to the record the store returned: no
    response leaves without the cross-origin envelope. *)
Theorem loader_returns_through_cors {Envelope : Type}
        (checkout : Outcome (HostVal Envelope)) (findFirst : Outcome Data)
        (response : Envelope) :
  loader checkout findFirst = Returns response ->
  exists checkoutResult cors_of_result cors payload,
    checkout = Returns checkoutResult
    /\ get checkoutResult (js "cors") = Returns cors_of_result
    /\ get cors_of_result (js "cors") = Returns (JFun cors)
    /\ cors payload = Returns response
    /\ (payload = unauthorized
        \/ payload = server_error
        \/ exists record, findFirst = Returns record /\ payload = data record None).
Proof.
  unfold loader. intros H.
  destruct checkout as [checkoutResult | e]; cbn [obind] in H; [| discriminate].
  destruct (get checkoutResult (js "session")) as [s1 | e]; cbn [obind] in H;
    [| discriminate].
  destruct (get s1 (js "session")) as [session | e]; cbn [obind] in H; [| discriminate].
  destruct (get checkoutResult (js "cors")) as [c1 | e] eqn:Hc1; cbn [obind] in H;
    [| discriminate].
  destruct (get c1 (js "cors")) as [cors | e] eqn:Hcors; cbn [obind] in H;
    [| discriminate].
  assert (Hfun : forall payload, call cors payload = Returns response ->
                                 exists f, cors = JFun f /\ f payload = Returns response).
  { intros payload Hcall. destruct cors; try discriminate Hcall. eauto. }
  destruct (negb (ToBoolean session)).
  - destruct (Hfun _ H) as (f & -> & Hf).
    exists checkoutResult, c1, f, unauthorized. repeat split; auto.
  - destruct findFirst as [record | e]; cbn [obind catch] in H.
    + destruct (call cors (data record None)) as [r | e] eqn:Hcall; cbn [catch] in H.
      * injection H as ->. destruct (Hfun _ Hcall) as (f & -> & Hf).
        exists checkoutResult, c1, f, (data record None). repeat split; eauto.
      * destruct (Hfun _ H) as (f & -> & Hf).
        exists checkoutResult, c1, f, server_error. repeat split; auto.
    + destruct (Hfun _ H) as (f & -> & Hf).
      exists checkoutResult, c1, f, server_error. repeat split; auto.
Qed.

Lemma loader_returns_through_cors_witness :
  exists checkoutResult cors_of_result cors payload,
    Returns (nested_checkout JNull) = Returns checkoutResult
    /\ get checkoutResult (js "cors") = Returns cors_of_result
    /\ get cors_of_result (js "cors") = Returns (JFun cors)
    /\ cors payload = Returns unauthorized
    /\ (payload = unauthorized
        \/ payload = server_error
        \/ exists record, Returns JNull = Returns record /\ payload = data record None).
Proof.
  apply (loader_returns_through_cors (Returns (nested_checkout JNull)) (Returns JNull)
           unauthorized).
  reflexivity.
Defined.

(** X12.  With a truthy session under [session.session] and a function
    under [cors.cors], the loader answers through [cors]: the record with no
    status when the store returns one, the 500 body when the store throws —
    and also when [cors] itself throws on the record, since that call sits
    inside the [try]. *)
Theorem loader_authorized {Envelope : Type} (cors : HostFunction Envelope)
        (checkoutResult session_of_result session cors_of_result : HostVal Envelope)
        (findFirst : Outcome Data) :
  get checkoutResult (js "session") = Returns session_of_result ->
  get session_of_result (js "session") = Returns session ->
  get checkoutResult (js "cors") = Returns cors_of_result ->
  get cors_of_result (js "cors") = Returns (JFun cors) ->
  ToBoolean session = true ->
  loader (Returns checkoutResult) findFirst =
  match findFirst with
  | Returns record =>
      match cors (data record None) with
      | Returns response => Returns response
      | Throws _ => cors server_error
      end
  | Throws _ => cors server_error
  end.
Proof.
  intros H1 H2 H3 H4 Htruthy. unfold loader. cbn [obind].
  rewrite H1. cbn [obind]. rewrite H2. cbn [obind].
  rewrite H3. cbn [obind]. rewrite H4. cbn [obind].
  rewrite Htruthy. cbn [negb].
  destruct findFirst as [record | e]; reflexivity.
Qed.

Lemma loader_authorized_witness :
  loader (Returns (nested_checkout (JBool true))) (Throws (HostError "database down"))
  = Returns server_error.
Proof.
  apply (loader_authorized (fun response => Returns response)
           (nested_checkout (JBool true))
           (JObj [(js "session", JBool true)]) (JBool true)
           (JObj [(js "cors", JFun (fun response => Returns response))])
           (Throws (HostError "database down")));
    reflexivity.
Defined.

(* ===================================================================== *)
(** * Shortening titles for the list *)
(* ===================================================================== *)

Lemma slice_to_take (s : JsString) (n : Z) :
  (0 <= n)%Z -> slice_to s n = take (Z.to_nat n) s.
Proof.
  intros Hn. unfold slice_to.
  destruct (Z.ltb_spec n 0) as [Hneg | _]; [lia |].
  destruct (Z.min_spec n (Z.of_nat (length s))) as [[_ ->] | [Hge ->]];
    [reflexivity |].
  rewrite Nat2Z.id, firstn_all.
  symmetry. apply take_ge. lia.
Qed.

Lemma truncate_long (s : JsString) (n : Z) :
  s <> [] -> (n < Z.of_nat (length s))%Z ->
  truncate (Some s) (Some n) = slice_to s n ++ ellipsis.
Proof.
  intros Hs Hlong. unfold truncate. cbn [default from_option id string_value].
  destruct s as [| c s]; [congruence |]. cbn [ToBoolean negb].
  destruct (Z.leb_spec (Z.of_nat (length (c :: s))) n); [lia | reflexivity].
Qed.

Lemma longer_nonempty (s : JsString) (n : Z) :
  (0 <= n < Z.of_nat (length s))%Z -> s <> [].
Proof. intros H ->. cbn [length] in H. lia. Qed.

(** X13.  [truncate] returns the empty string for an absent or empty
    string and a string of at most [length] units unchanged; a longer one is
    cut to its first [length] units followed by the three-unit ending (for a
    negative [length], to all but its last [-length] units).  Without the
    option the limit is 25. *)
Theorem truncate_shape (str : option JsString) (n : Z) :
  truncate str None = truncate str (Some 25%Z)
  /\ (str = None \/ str = Some [] -> truncate str (Some n) = [])
  /\ (forall s, str = Some s -> (Z.of_nat (length s) <= n)%Z ->
                truncate str (Some n) = s)
  /\ (forall s, str = Some s -> (0 <= n < Z.of_nat (length s))%Z ->
                truncate str (Some n) = take (Z.to_nat n) s ++ ellipsis
                /\ Z.of_nat (length (truncate str (Some n))) = (n + 3)%Z)
  /\ (forall s, str = Some s -> (n < 0)%Z -> s <> [] ->
                truncate str (Some n)
                = take (length s - Z.to_nat (- n)) s ++ ellipsis).
Proof.
  split; [reflexivity |]. split; [| split; [| split]].
  - intros [-> | ->]; reflexivity.
  - intros s -> Hshort. unfold truncate. cbn [default from_option id string_value].
    destruct s as [| c s]; [reflexivity |]. cbn [ToBoolean negb].
    destruct (Z.leb_spec (Z.of_nat (length (c :: s))) n); [reflexivity | lia].
  - intros s -> [Hn Hlong].
    rewrite truncate_long by (eauto using longer_nonempty).
    rewrite slice_to_take by exact Hn. split; [reflexivity |].
    rewrite length_app, length_take. cbn [length ellipsis]. lia.
  - intros s -> Hneg Hs. rewrite truncate_long by (assumption || lia). f_equal.
    unfold slice_to. destruct (Z.ltb_spec n 0); [| lia]. f_equal. lia.
Qed.

Lemma truncate_shape_witness :
  truncate (Some (js "Summer clearance upsell group")) (Some 6%Z)
  = js "Summer" ++ ellipsis.
Proof.
  destruct (truncate_shape (Some (js "Summer clearance upsell group")) 6)
    as (_ & _ & _ & Hcut & _).
  apply (Hcut (js "Summer clearance upsell group")).
  - reflexivity.
  - cbn. lia.
Defined.

(** X14.  For a non-negative limit, shortening is idempotent: a title that
    was shortened is three units over the limit, and shortening it again
    gives the same text. *)
Theorem truncate_idempotent (str : option JsString) (n : Z) :
  (0 <= n)%Z ->
  truncate (Some (truncate str (Some n))) (Some n) = truncate str (Some n).
Proof.
  intros Hn. destruct str as [s |]; [| reflexivity].
  destruct (Z.le_gt_cases (Z.of_nat (length s)) n) as [Hshort | Hlong].
  - assert (Hs : truncate (Some s) (Some n) = s).
    { unfold truncate. cbn [default from_option id string_value].
      destruct s as [| c s]; [reflexivity |]. cbn [ToBoolean negb].
      destruct (Z.leb_spec (Z.of_nat (length (c :: s))) n); [reflexivity | lia]. }
    rewrite Hs. exact Hs.
  - rewrite (truncate_long s n (longer_nonempty s n (conj Hn Hlong)) Hlong),
      slice_to_take by exact Hn.
    assert (Hlen : length (take (Z.to_nat n) s) = Z.to_nat n)
      by (rewrite length_take; lia).
    rewrite truncate_long;
      [| destruct (take (Z.to_nat n) s); discriminate
       | rewrite length_app, Hlen; cbn [length ellipsis]; lia].
    rewrite slice_to_take by exact Hn.
    rewrite take_app_le by lia. rewrite take_take. f_equal. f_equal. lia.
Qed.

Lemma truncate_idempotent_witness :
  truncate (Some (truncate (Some (js "Summer clearance upsell group")) (Some 25%Z)))
           (Some 25%Z)
  = truncate (Some (js "Summer clearance upsell group")) (Some 25%Z).
Proof.
  apply (truncate_idempotent (Some (js "Summer clearance upsell group")) 25). lia.
Defined.

(* ===================================================================== *)
(** * The edit page *)
(* ===================================================================== *)

Import UpsellRoute.

Lemma validate_submitted (formData : FormData) :
  ToBoolean (validateUpsellGroup (submitted formData)) = false
  <-> or_else_string (form_get (js "title") formData) (js "") <> []
      /\ form_getAll (js "productIds[]") formData <> [].
Proof.
  unfold submitted.
  destruct (or_else_string (form_get (js "title") formData) (js "")) as [| c t];
    destruct (form_getAll (js "productIds[]") formData) as [| i l];
    split; try (intros H; vm_compute in H; discriminate H).
  all: try (intros [H1 H2]; congruence).
  - intros _. split; discriminate.
  - intros _. vm_compute. reflexivity.
Qed.

Lemma action_not_delete (Number : JsString -> Z) context params_id formData w :
  form_get (js "action") formData <> Some (js "delete") ->
  action Number (Returns context) params_id formData w =
  if ToBoolean (validateUpsellGroup (submitted formData))
  then (Returns (Json (Errors (validateUpsellGroup (submitted formData))) (Some 422%Z)), w)
  else
    match (if bool_decide (params_id = js "new")
           then bind (createUpsellGroup (session_shop context)
                        (data_title (submitted formData))
                        (data_productIds (submitted formData)))
                     (fun created => ret (Some created))
           else updateUpsellGroup (Number params_id) (session_shop context)
                                  (submitted formData)) w with
    | (Returns (Some group), w') =>
        (Returns (Redirect (js "/app/upsell/" ++ number_to_string (group_id group))), w')
    | (Returns None, w') => (Throws (TypeError "Cannot read properties of null"), w')
    | (Throws e, w') => (Throws e, w')
    end.
Proof.
  intros Hnd. unfold action. unfold bind at 1, lift. cbn [fst snd].
  rewrite bool_decide_false by exact Hnd. fold (submitted formData).
  destruct (ToBoolean (validateUpsellGroup (submitted formData))); [reflexivity |].
  unfold bind at 1.
  destruct ((if bool_decide (params_id = js "new")
             then bind (createUpsellGroup (session_shop context)
                          (data_title (submitted formData))
                          (data_productIds (submitted formData)))
                       (fun created => ret (Some created))
             else updateUpsellGroup (Number params_id) (session_shop context)
                                    (submitted formData)) w)
    as [[[group |] | e] w']; reflexivity.
Qed.

(** X15.  A submission that fails validation is answered with status 422
    and the error object, and nothing is written.  No submission at all
    makes the service-level assertions fire: the action only calls
    [createUpsellGroup] and [updateUpsellGroup] with candidates that passed
    [validateUpsellGroup]. *)
Theorem action_validates_first (Number : JsString -> Z) (context : AdminContext)
        (params_id : JsString) (formData : FormData) (w : World) :
  (form_get (js "action") formData <> Some (js "delete") ->
   ToBoolean (validateUpsellGroup (submitted formData)) = true ->
   action Number (Returns context) params_id formData w
   = (Returns (Json (Errors (validateUpsellGroup (submitted formData))) (Some 422%Z)), w))
  /\ (forall message,
         fst (action Number (Returns context) params_id formData w)
         <> Throws (InvariantFailed message)).
Proof.
  destruct (decide (form_get (js "action") formData = Some (js "delete")))
    as [Hdel | Hnd].
  { split; [contradiction |]. intros message.
    unfold action. unfold bind at 1, lift.
    rewrite bool_decide_true by exact Hdel. discriminate. }
  rewrite action_not_delete by exact Hnd.
  destruct (ToBoolean (validateUpsellGroup (submitted formData))) eqn:Hvalid.
  { split; [reflexivity | discriminate]. }
  split; [discriminate |]. intros message.
  apply validate_submitted in Hvalid as [Htitle Hids].
  unfold submitted in *. cbn [data_title data_productIds] in *.
  destruct (or_else_string (form_get (js "title") formData) (js "")) as [| c t];
    [congruence |].
  destruct (form_getAll (js "productIds[]") formData) as [| i l]; [congruence |].
  destruct (bool_decide (params_id = js "new")).
  - unfold bind. rewrite createUpsellGroup_accepted. discriminate.
  - rewrite updateUpsellGroup_accepted. cbv zeta.
    destruct (db.findFirst _ _ _); discriminate.
Qed.

Lemma action_validates_first_witness :
  action decimal_param (Returns shop_a_admin) (js "new")
         (handleSave {| form_title := js ""; form_products := [] |}) two_shops
  = (Returns (Json (Errors (validateUpsellGroup
                              (submitted (handleSave {| form_title := js "";
                                                        form_products := [] |}))))
                   (Some 422%Z)), two_shops).
Proof.
  apply (action_validates_first decimal_param shop_a_admin (js "new")
           (handleSave {| form_title := js ""; form_products := [] |}) two_shops).
  - vm_compute. discriminate.
  - vm_compute. reflexivity.
Defined.

(** X16.  Saving changes to a group that no record of the session's shop
    matches — deleted meanwhile, or another shop's id — ends in a TypeError:
    [updateUpsellGroup] returns [null] and the action reads [group.id] from
    it.  No row is changed. *)
Theorem action_update_missing (Number : JsString -> Z) (context : AdminContext)
        (params_id : JsString) (formData : FormData) (w : World) :
  form_get (js "action") formData <> Some (js "delete") ->
  ToBoolean (validateUpsellGroup (submitted formData)) = false ->
  params_id <> js "new" ->
  db.count (Number params_id) (session_shop context) (store w) = 0%nat ->
  fst (action Number (Returns context) params_id formData w)
  = Throws (TypeError "Cannot read properties of null")
  /\ rows (store (snd (action Number (Returns context) params_id formData w)))
     = rows (store w).
Proof.
  intros Hnd Hvalid Hnew Hnone. rewrite action_not_delete by exact Hnd.
  rewrite Hvalid, bool_decide_false by exact Hnew.
  apply validate_submitted in Hvalid as [Htitle Hids].
  unfold submitted in *. cbn [data_title data_productIds] in *.
  destruct (or_else_string (form_get (js "title") formData) (js "")) as [| c t];
    [congruence |].
  destruct (form_getAll (js "productIds[]") formData) as [| i l]; [congruence |].
  rewrite updateUpsellGroup_accepted. cbv zeta.
  replace (db.findFirst (Number params_id) (session_shop context)
             (db.updateMany (Number params_id) (session_shop context) (c :: t)
                (JSON.stringify (i :: l)) (store w)))
    with (@None UpsellGroupFromDB).
  - cbn [fst snd store]. split; [reflexivity |].
    apply updateMany_none, Hnone.
  - symmetry. apply findFirst_None. rewrite updateMany_count. exact Hnone.
Qed.

Lemma action_update_missing_witness :
  fst (action decimal_param (Returns shop_a_admin) (js "2")
         (handleSave {| form_title := js "Autumn";
                        form_products :=
                          [{| picked_id := js "gid://shopify/Product/3";
                              picked_title := js "Boots";
                              picked_handle := None; picked_imageUrl := None |}] |})
         two_shops)
  = Throws (TypeError "Cannot read properties of null").
Proof.
  apply (action_update_missing decimal_param shop_a_admin (js "2")
           (handleSave {| form_title := js "Autumn";
                          form_products :=
                            [{| picked_id := js "gid://shopify/Product/3";
                                picked_title := js "Boots";
                                picked_handle := None; picked_imageUrl := None |}] |})
           two_shops).
  - vm_compute. discriminate.
  - vm_compute. reflexivity.
  - vm_compute. discriminate.
  - vm_compute. reflexivity.
Defined.

(** The conversion [FormData.append] applies. *)
Lemma toWellFormed_pair (c d : CodeUnit) (r : JsString) :
  toWellFormed (c :: d :: r)
  = if JSON.is_high_surrogate c && JSON.is_low_surrogate d
    then c :: d :: toWellFormed r
    else (if is_surrogate c then 65533%N else c) :: toWellFormed (d :: r).
Proof. reflexivity. Qed.

Lemma isWellFormed_pair (c d : CodeUnit) (r : JsString) :
  isWellFormed (c :: d :: r)
  = if JSON.is_high_surrogate c && JSON.is_low_surrogate d
    then isWellFormed r
    else negb (is_surrogate c) && isWellFormed (d :: r).
Proof. reflexivity. Qed.

Lemma by_pairs_ind (P : JsString -> Prop) :
  P [] -> (forall c, P [c]) ->
  (forall c d r, P r -> P (d :: r) -> P (c :: d :: r)) ->
  forall s, P s.
Proof.
  intros Hnil Hone Hpair.
  assert (Hboth : forall s, P s /\ forall c, P (c :: s)).
  { induction s as [| d r [IHr IHdr]]; split; auto. }
  intros s. apply Hboth.
Qed.

Lemma toWellFormed_nil (s : JsString) : toWellFormed s = [] <-> s = [].
Proof.
  split; [| intros ->; reflexivity].
  destruct s as [| c [| d r]]; [reflexivity | discriminate |].
  rewrite toWellFormed_pair.
  destruct (JSON.is_high_surrogate c && JSON.is_low_surrogate d); discriminate.
Qed.

Lemma toWellFormed_id (s : JsString) : isWellFormed s = true -> toWellFormed s = s.
Proof.
  induction s as [| c | c d r IHr IHdr] using by_pairs_ind.
  - reflexivity.
  - cbn. destruct (is_surrogate c); [discriminate | reflexivity].
  - rewrite toWellFormed_pair, isWellFormed_pair.
    destruct (JSON.is_high_surrogate c && JSON.is_low_surrogate d).
    + intros H. rewrite IHr by exact H. reflexivity.
    + destruct (is_surrogate c); cbn [negb andb]; [discriminate |].
      intros H. rewrite IHdr by exact H. reflexivity.
Qed.

Lemma isWellFormed_cons (c : CodeUnit) (s : JsString) :
  is_surrogate c = false -> isWellFormed (c :: s) = isWellFormed s.
Proof.
  intros Hc. destruct s as [| d r].
  - cbn. rewrite Hc. reflexivity.
  - rewrite isWellFormed_pair, Hc.
    apply orb_false_iff in Hc as [-> _]. reflexivity.
Qed.

Lemma toWellFormed_isWellFormed (s : JsString) : isWellFormed (toWellFormed s) = true.
Proof.
  induction s as [| c | c d r IHr IHdr] using by_pairs_ind.
  - reflexivity.
  - cbn. destruct (is_surrogate c) eqn:Hc; [reflexivity |]. rewrite Hc. reflexivity.
  - rewrite toWellFormed_pair.
    destruct (JSON.is_high_surrogate c && JSON.is_low_surrogate d) eqn:Hpair.
    + rewrite isWellFormed_pair, Hpair. exact IHr.
    + rewrite isWellFormed_cons; [exact IHdr |].
      destruct (is_surrogate c) eqn:Hc; [reflexivity | exact Hc].
Qed.

Lemma toWellFormed_ids (ids : list JsString) :
  Forall (fun id => isWellFormed id = true) ids -> toWellFormed <$> ids = ids.
Proof.
  induction 1 as [| id ids Hid _ IH]; [reflexivity |].
  rewrite fmap_cons, IH, toWellFormed_id by exact Hid. reflexivity.
Qed.

Lemma form_get_append name name' value (fd : FormData) :
  form_get name (form_append name' value fd)
  = match form_get name fd with
    | Some v => Some v
    | None => if bool_decide (toWellFormed name' = name)
              then Some (toWellFormed value) else None
    end.
Proof.
  unfold form_append. induction fd as [| [n v] fd IH]; cbn [app form_get].
  - reflexivity.
  - destruct (bool_decide (n = name)); [reflexivity | exact IH].
Qed.

Lemma form_getAll_append name name' value (fd : FormData) :
  form_getAll name (form_append name' value fd)
  = form_getAll name fd
    ++ (if bool_decide (toWellFormed name' = name) then [toWellFormed value] else []).
Proof.
  unfold form_append. induction fd as [| [n v] fd IH]; cbn [app form_getAll].
  - destruct (bool_decide (toWellFormed name' = name)); reflexivity.
  - destruct (bool_decide (n = name)); cbn [app]; rewrite IH; reflexivity.
Qed.

Lemma handleSave_fold (products : list Product) :
  forall fd : FormData,
    form_get (js "action")
      (fold_left (fun fd p => form_append (js "productIds[]") (picked_id p) fd) products fd)
    = form_get (js "action") fd
    /\ form_get (js "title")
         (fold_left (fun fd p => form_append (js "productIds[]") (picked_id p) fd)
                    products fd)
       = form_get (js "title") fd
    /\ form_getAll (js "productIds[]")
         (fold_left (fun fd p => form_append (js "productIds[]") (picked_id p) fd)
                    products fd)
       = form_getAll (js "productIds[]") fd
         ++ (toWellFormed <$> (picked_id <$> products)).
Proof.
  induction products as [| p products IH]; intros fd; cbn [fold_left].
  - rewrite app_nil_r. repeat split.
  - destruct (IH (form_append (js "productIds[]") (picked_id p) fd)) as (Ha & Ht & Hp).
    rewrite Ha, Ht, Hp, !form_get_append, form_getAll_append.
    rewrite bool_decide_false by (vm_compute; discriminate).
    rewrite bool_decide_false by (vm_compute; discriminate).
    rewrite bool_decide_true by (vm_compute; reflexivity).
    split; [destruct (form_get (js "action") fd); reflexivity |].
    split; [destruct (form_get (js "title") fd); reflexivity |].
    rewrite <- app_assoc. reflexivity.
Qed.

Lemma handleSave_entries (formState : FormState) :
  form_get (js "action") (handleSave formState) = None
  /\ form_get (js "title") (handleSave formState)
     = Some (toWellFormed (form_title formState))
  /\ form_getAll (js "productIds[]") (handleSave formState)
     = toWellFormed <$> (picked_id <$> form_products formState)
  /\ submitted (handleSave formState)
     = {| data_title := Some (toWellFormed (form_title formState));
          data_productIds :=
            Some (toWellFormed <$> (picked_id <$> form_products formState)) |}.
Proof.
  unfold handleSave.
  destruct (handleSave_fold (form_products formState)
              (form_append (js "title")
                 (or_else_string (Some (form_title formState)) (js "")) []))
    as (Ha & Ht & Hp).
  assert (Htitle : or_else_string (Some (form_title formState)) (js "")
                   = form_title formState)
    by (destruct (form_title formState); reflexivity).
  rewrite Htitle in *.
  rewrite form_get_append in Ha, Ht. rewrite form_getAll_append in Hp.
  cbn [form_get form_getAll app] in Ha, Ht, Hp.
  rewrite bool_decide_false in Ha by (vm_compute; discriminate).
  rewrite bool_decide_true in Ht by (vm_compute; reflexivity).
  rewrite bool_decide_false in Hp by (vm_compute; discriminate).
  cbn [app] in Hp.
  split; [exact Ha |]. split; [exact Ht |]. split; [exact Hp |].
  unfold submitted. rewrite Ht, Hp.
  destruct (toWellFormed (form_title formState)); reflexivity.
Qed.

(** X17.  What [handleSave] puts into the form is what the action reads
    back: under [title] the title and under [productIds[]] the ids of the
    chosen products, in order, each as [append] stores it — with U+FFFD for
    a surrogate outside a pair, and unchanged when it is well formed — and
    no [action] field: a save is never taken for a delete. *)
Theorem handleSave_read_back (formState : FormState) :
  let title := toWellFormed (form_title formState) in
  let ids := toWellFormed <$> (picked_id <$> form_products formState) in
  form_get (js "action") (handleSave formState) = None
  /\ form_get (js "title") (handleSave formState) = Some title
  /\ form_getAll (js "productIds[]") (handleSave formState) = ids
  /\ submitted (handleSave formState)
     = {| data_title := Some title; data_productIds := Some ids |}
  /\ isWellFormed title = true
  /\ Forall (fun id => isWellFormed id = true) ids
  /\ (isWellFormed (form_title formState) = true -> title = form_title formState)
  /\ (Forall (fun product => isWellFormed (picked_id product) = true)
             (form_products formState) ->
      ids = picked_id <$> form_products formState).
Proof.
  cbv zeta. destruct (handleSave_entries formState) as (Ha & Ht & Hp & Hsub).
  do 4 (split; [assumption |]).
  split; [apply toWellFormed_isWellFormed |].
  split; [| split].
  - apply List.Forall_forall. intros id Hin.
    apply list_elem_of_In, list_elem_of_fmap in Hin as (id' & -> & _).
    apply toWellFormed_isWellFormed.
  - apply toWellFormed_id.
  - intros Hwf. apply toWellFormed_ids, List.Forall_forall. intros id Hin.
    apply list_elem_of_In, list_elem_of_fmap in Hin as (product & -> & Hp').
    rewrite List.Forall_forall in Hwf. apply Hwf, list_elem_of_In, Hp'.
Qed.

Lemma handleSave_read_back_witness :
  form_getAll (js "productIds[]")
    (handleSave {| form_title := js "Spring";
                   form_products :=
                     [{| picked_id := js "gid://shopify/Product/4";
                         picked_title := js "Umbrella";
                         picked_handle := None; picked_imageUrl := None |}] |})
  = [js "gid://shopify/Product/4"].
Proof.
  destruct (handleSave_read_back
              {| form_title := js "Spring";
                 form_products :=
                   [{| picked_id := js "gid://shopify/Product/4";
                       picked_title := js "Umbrella";
                       picked_handle := None; picked_imageUrl := None |}] |})
    as (_ & _ & Hids & _ & _ & _ & _ & Hsame).
  rewrite Hids. apply Hsame. repeat constructor.
Defined.

(** X18.  Saving a new group from a form state with a title and at least
    one product appends one record — the session's shop, the next id, and
    the title and the serialized product ids as the form carries them — and
    redirects to that id's page. *)
Theorem save_new_group (Number : JsString -> Z) (context : AdminContext)
        (formState : FormState) (w : World) :
  form_title formState <> [] -> form_products formState <> [] ->
  let id := next_id (store w) in
  let row := {| group_id := id;
                group_title := toWellFormed (form_title formState);
                group_shop := session_shop context;
                group_productIds :=
                  JSON.stringify
                    (toWellFormed <$> (picked_id <$> form_products formState));
                group_createdAt := clock w |} in
  action Number (Returns context) (js "new") (handleSave formState) w
  = (Returns (Redirect (js "/app/upsell/" ++ number_to_string id)),
     {| store := {| rows := rows (store w) ++ [row]; next_id := (id + 1)%Z |};
        clock := clock w; requests := requests w |}).
Proof.
  intros Htitle Hproducts. cbv zeta.
  destruct (handleSave_entries formState) as (Ha & _ & _ & Hsub).
  rewrite action_not_delete by (rewrite Ha; discriminate).
  rewrite Hsub. cbn [data_title data_productIds].
  destruct (toWellFormed (form_title formState)) as [| c t] eqn:Hwf.
  { apply (proj1 (toWellFormed_nil _)) in Hwf. congruence. }
  destruct (form_products formState) as [| p ps]; [congruence |].
  rewrite !fmap_cons.
  replace (ToBoolean (validateUpsellGroup
             {| data_title := Some (c :: t);
                data_productIds :=
                  Some (toWellFormed (picked_id p)
                        :: (toWellFormed <$> (picked_id <$> ps))) |}))
    with false by reflexivity.
  rewrite bool_decide_true by reflexivity.
  unfold bind. rewrite createUpsellGroup_accepted. reflexivity.
Qed.

Lemma save_new_group_witness :
  fst (action decimal_param (Returns shop_a_admin) (js "new")
         (handleSave {| form_title := js "Spring";
                        form_products :=
                          [{| picked_id := js "gid://shopify/Product/4";
                              picked_title := js "Umbrella";
                              picked_handle := None; picked_imageUrl := None |}] |})
         two_shops)
  = Returns (Redirect (js "/app/upsell/3")).
Proof.
  rewrite (save_new_group decimal_param shop_a_admin
             {| form_title := js "Spring";
                form_products :=
                  [{| picked_id := js "gid://shopify/Product/4";
                      picked_title := js "Umbrella";
                      picked_handle := None; picked_imageUrl := None |}] |}
             two_shops); [reflexivity | discriminate | discriminate].
Defined.

(** X19.  A form whose [action] field is ["delete"] — the one
    [handleDelete] submits — deletes under the session's shop and redirects
    to the list, whatever else the form holds and whether or not a record
    matched; nothing is validated. *)
Theorem action_delete (Number : JsString -> Z) (context : AdminContext)
        (params_id : JsString) (formData : FormData) (w : World) :
  form_get (js "action") formData = Some (js "delete") ->
  action Number (Returns context) params_id formData w
  = (Returns (Redirect (js "/app/upsells")),
     snd (deleteUpsellGroup (Number params_id) (session_shop context) w)).
Proof.
  intros Hdel. unfold action. unfold bind at 1, lift.
  rewrite bool_decide_true by exact Hdel. reflexivity.
Qed.

Lemma action_delete_witness :
  action decimal_param (Returns shop_a_admin) (js "1") handleDelete two_shops
  = (Returns (Redirect (js "/app/upsells")),
     snd (deleteUpsellGroup 1 (js "a.myshopify.com") two_shops)).
Proof.
  apply (action_delete decimal_param shop_a_admin (js "1") handleDelete two_shops).
  reflexivity.
Defined.

(** X20.  The page's loader answers the blank form for ["new"] without
    reading the store or the catalog; for another id it redirects to the
    list exactly when no record of the session's shop has that id, and
    otherwise answers what [getUpsellGroup] returns: the outcome of
    [supplementUpsellGroup], with the session's client, on the record the
    store finds.  When authentication throws, loader and action throw the
    same error and leave the world alone. *)
Theorem edit_loader_cases (Number : JsString -> Z) (context : AdminContext)
        (params_id : JsString) (formData : FormData) (e : Exn) (w : World) :
  UpsellRoute.loader Number (Returns context) (js "new") w
  = (Returns (Json BlankForm None), w)
  /\ (params_id <> js "new" ->
      db.count (Number params_id) (session_shop context) (store w) = 0%nat ->
      UpsellRoute.loader Number (Returns context) params_id w
      = (Returns (Redirect (js "/app/upsells")), w))
  /\ (params_id <> js "new" ->
      db.count (Number params_id) (session_shop context) (store w) <> 0%nat ->
      exists row enriched w',
        UpsellRoute.loader Number (Returns context) params_id w
        = (Returns (Json (Group enriched) None), w')
        /\ getUpsellGroup (Number params_id) (session_shop context) (admin context) w
           = (Returns (Some enriched), w')
        /\ db.findFirst (Number params_id) (session_shop context) (store w) = Some row
        /\ supplementUpsellGroup row (admin context) w = (Returns enriched, w')
        /\ enriched_id enriched = Number params_id
        /\ enriched_shop enriched = session_shop context)
  /\ UpsellRoute.loader Number (Throws e) params_id w = (Throws e, w)
  /\ action Number (Throws e) params_id formData w = (Throws e, w).
Proof.
  split; [reflexivity |]. split; [| split; [| split; reflexivity]].
  - intros Hnew Hnone. unfold UpsellRoute.loader. unfold bind at 1, lift.
    rewrite bool_decide_false by exact Hnew.
    unfold bind. rewrite getUpsellGroup_run.
    apply findFirst_None in Hnone. rewrite Hnone. reflexivity.
  - intros Hnew Hsome. unfold UpsellRoute.loader. unfold bind at 1, lift.
    rewrite bool_decide_false by exact Hnew.
    unfold bind. rewrite getUpsellGroup_run.
    destruct (findFirst_is_Some _ _ _ Hsome) as [row Hrow]. rewrite Hrow.
    pose proof Hrow as Hfound. apply findFirst_Some in Hfound as [_ [Hid Hshop]].
    destruct (supplementUpsellGroup_returns row (admin context) w)
      as (products & w' & Hrun & _).
    unfold fst_enriched. rewrite Hrun. cbn [fst snd].
    exists row, (basic row products), w'. repeat split; assumption.
Qed.

Lemma edit_loader_cases_witness :
  UpsellRoute.loader decimal_param (Returns shop_a_admin) (js "2") two_shops
  = (Returns (Redirect (js "/app/upsells")), two_shops)
  /\ exists enriched w',
       UpsellRoute.loader decimal_param (Returns shop_a_admin) (js "1") two_shops
       = (Returns (Json (Group enriched) None), w')
       /\ supplementUpsellGroup summer_row partial_client two_shops
          = (Returns enriched, w').
Proof.
  split.
  - destruct (edit_loader_cases decimal_param shop_a_admin (js "2") [] (HostError "expired")
                two_shops) as (_ & Hmissing & _).
    apply Hmissing.
    + vm_compute. discriminate.
    + vm_compute. reflexivity.
  - destruct (edit_loader_cases decimal_param shop_a_admin (js "1") [] (HostError "expired")
                two_shops) as (_ & _ & Hfound & _).
    destruct Hfound as (row & enriched & w' & Hload & _ & Hfind & Hrun & _).
    + vm_compute. discriminate.
    + vm_compute. discriminate.
    + exists enriched, w'. split; [exact Hload |].
      assert (Hrow : row = summer_row)
        by (apply (inj Some); rewrite <- Hfind; vm_compute; reflexivity).
      rewrite <- Hrow. exact Hrun.
Defined.

(** X21.  Removing a product from the form state removes every chosen
    product with that id and keeps the others in order, so a later save
    submits the ids of the products that are left, as [append] stores them.
    Where the chosen ids are well formed these are the ids submitted before
    without the removed one, which is no longer among them. *)
Theorem handleRemoveProduct_saved (productId : JsString) (formState : FormState) :
  form_getAll (js "productIds[]") (handleSave (handleRemoveProduct productId formState))
  = toWellFormed <$> filter (fun id => id <> productId)
                            (picked_id <$> form_products formState)
  /\ form_get (js "title") (handleSave (handleRemoveProduct productId formState))
     = form_get (js "title") (handleSave formState)
  /\ (Forall (fun product => isWellFormed (picked_id product) = true)
             (form_products formState) ->
      form_getAll (js "productIds[]")
                  (handleSave (handleRemoveProduct productId formState))
      = filter (fun id => id <> productId)
               (form_getAll (js "productIds[]") (handleSave formState))
      /\ ~ (productId ∈ form_getAll (js "productIds[]")
                            (handleSave (handleRemoveProduct productId formState)))).
Proof.
  assert (Hfilter : picked_id <$> form_products (handleRemoveProduct productId formState)
                    = filter (fun id => id <> productId)
                             (picked_id <$> form_products formState)).
  { unfold handleRemoveProduct. cbn [form_products].
    induction (form_products formState) as [| p ps IH]; [reflexivity |].
    cbn [List.filter]. rewrite fmap_cons, filter_cons.
    destruct (decide (picked_id p = productId)) as [Heq | Hne].
    - rewrite bool_decide_true by exact Heq. cbn [negb].
      rewrite decide_False by (intros Hne; contradiction). exact IH.
    - rewrite bool_decide_false by exact Hne. cbn [negb].
      rewrite decide_True by exact Hne. rewrite fmap_cons, IH. reflexivity. }
  destruct (handleSave_entries formState) as (_ & Ht & Hp & _).
  destruct (handleSave_entries (handleRemoveProduct productId formState))
    as (_ & Ht' & Hp' & _).
  rewrite Hp', Hp, Ht', Ht, Hfilter. split; [reflexivity |]. split; [reflexivity |].
  intros Hwf.
  assert (Hids : Forall (fun id => isWellFormed id = true)
                        (picked_id <$> form_products formState)).
  { apply List.Forall_forall. intros id Hin.
    apply list_elem_of_In, list_elem_of_fmap in Hin as (product & -> & Hin).
    rewrite List.Forall_forall in Hwf. apply Hwf, list_elem_of_In, Hin. }
  assert (Hkept : Forall (fun id => isWellFormed id = true)
                         (filter (fun id => id <> productId)
                                 (picked_id <$> form_products formState))).
  { apply List.Forall_forall. intros id Hin.
    apply list_elem_of_In, list_elem_of_filter in Hin as [_ Hin].
    rewrite List.Forall_forall in Hids. apply Hids, list_elem_of_In, Hin. }
  rewrite (toWellFormed_ids _ Hids), (toWellFormed_ids _ Hkept).
  split; [reflexivity |].
  intros Hin. apply list_elem_of_filter in Hin as [Hne _]. congruence.
Qed.

Lemma handleRemoveProduct_saved_witness :
  form_getAll (js "productIds[]")
    (handleSave
       (handleRemoveProduct (js "gid://shopify/Product/4")
          {| form_title := js "Spring";
             form_products :=
               [{| picked_id := js "gid://shopify/Product/4";
                   picked_title := js "Umbrella";
                   picked_handle := None; picked_imageUrl := None |};
                {| picked_id := js "gid://shopify/Product/5";
                   picked_title := js "Raincoat";
                   picked_handle := None; picked_imageUrl := None |}] |}))
  = [js "gid://shopify/Product/5"].
Proof.
  destruct (handleRemoveProduct_saved (js "gid://shopify/Product/4")
              {| form_title := js "Spring";
                 form_products :=
                   [{| picked_id := js "gid://shopify/Product/4";
                       picked_title := js "Umbrella";
                       picked_handle := None; picked_imageUrl := None |};
                    {| picked_id := js "gid://shopify/Product/5";
                       picked_title := js "Raincoat";
                       picked_handle := None; picked_imageUrl := None |}] |})
    as (_ & _ & Hwf).
  destruct Hwf as [Hids _]; [repeat constructor |].
  rewrite Hids. vm_compute. reflexivity.
Defined.
